(** * Baraka: language pipeline, department router and retrieval cascade

    A shallow embedding of the core of [app.py]: the placeholder guard, the
    language normaliser and command interpreter, the vector index builder, the
    department router and the three-tier retrieval cascade, together with the
    properties of the specification that concern them; and of what surrounds
    the core: the chat and complaint pages, the index helper of the admin
    forms, password hashing with the users table, start-up, login and the
    page router.

    Python values are modelled as follows.
    - [str] is a list of Unicode code points ([N]); literals are written
      [py "..."], which decodes the UTF-8 bytes of a Rocq string.
    - A [float] score is a rational ([Q]).  Every double is a rational, and
      for a double [x] the test [x >= 0.40] against the double nearest to
      0.40 holds exactly when [x >= 2/5] (no double lies strictly between a
      decimal constant and its nearest double), so thresholds are the exact
      decimal fractions.
    - A call that may raise returns [Exc]; [try ... except Exception] is
      [try_except].
    - Libraries that are not part of the repository (scikit-learn, numpy, the
      OpenAI client, [json], Unicode case tables, float formatting) are fields
      of the record [World]; every theorem holds for all worlds.  In the same
      way [os.urandom], [hashlib], [base64] and the text codecs are fields of
      the record [Crypto].
    - A table is the list of its rows; a statement that changes it returns
      the new table. *)

From Stdlib Require Import Ascii String.
From Stdlib Require Import List NArith ZArith QArith Bool Lia.
From Stdlib Require Import Permutation Sorted.
From Stdlib Require Decimal DecimalNat.
Import ListNotations.
Local Open Scope list_scope.
Local Open Scope N_scope.

(* ================================================================== *)
(** * Part I: the embedding                                            *)
(* ================================================================== *)

(** ** Python strings *)

Definition char := N.
Definition str := list char.

Definition ch (a : ascii) : char := N_of_ascii a.

Fixpoint bytes_of_string (s : string) : list N :=
  match s with
  | EmptyString => []
  | String a s' => N_of_ascii a :: bytes_of_string s'
  end.

(** UTF-8 decoding of a literal: [pending] continuation bytes are still
    expected and [acc] holds the bits read so far. *)
Fixpoint utf8_decode (pending : nat) (acc : N) (bs : list N) : str :=
  match bs with
  | [] => []
  | b :: bs' =>
      if b <? 128 then b :: utf8_decode 0 0 bs'
      else if b <? 192 then
        let acc' := acc * 64 + (b - 128) in
        match pending with
        | 1%nat => acc' :: utf8_decode 0 0 bs'
        | S k => utf8_decode k acc' bs'
        | O => utf8_decode 0 0 bs'
        end
      else if b <? 224 then utf8_decode 1 (b - 192) bs'
      else if b <? 240 then utf8_decode 2 (b - 224) bs'
      else utf8_decode 3 (b - 240) bs'
  end.

Definition py (s : string) : str := utf8_decode 0 0 (bytes_of_string s).

Fixpoint str_eqb (a b : str) : bool :=
  match a, b with
  | [], [] => true
  | x :: a', y :: b' => (x =? y) && str_eqb a' b'
  | _, _ => false
  end.

(** [s.startswith(p)] *)
Fixpoint startswith (p s : str) : bool :=
  match p, s with
  | [], _ => true
  | x :: p', y :: s' => (x =? y) && startswith p' s'
  | _ :: _, [] => false
  end.

(** [sub in s] *)
Fixpoint contains (sub s : str) : bool :=
  startswith sub s ||
  match s with
  | [] => false
  | _ :: s' => contains sub s'
  end.

(** [str.isspace] for one code point: the code points CPython treats as
    whitespace, which are also the ones [\s] matches in a [str] pattern. *)
Definition isspace (c : char) : bool :=
  ((9 <=? c) && (c <=? 13)) || ((28 <=? c) && (c <=? 32)) ||
  (c =? 133) || (c =? 160) || (c =? 5760) ||
  ((8192 <=? c) && (c <=? 8202)) || (c =? 8232) || (c =? 8233) ||
  (c =? 8239) || (c =? 8287) || (c =? 12288).

Fixpoint lstrip (s : str) : str :=
  match s with
  | [] => []
  | c :: s' => if isspace c then lstrip s' else s
  end.

Definition rstrip (s : str) : str := rev (lstrip (rev s)).

(** [s.strip()] *)
Definition strip (s : str) : str := rstrip (lstrip s).

(** [s.replace(old, new)] for a non-empty [old]: a left-to-right scan for
    non-overlapping occurrences; [skip] counts the characters of the
    occurrence just replaced that are still to be passed over. *)
Fixpoint replace_from (old new : str) (skip : nat) (s : str) : str :=
  match s with
  | [] => []
  | c :: s' =>
      match skip with
      | S k => replace_from old new k s'
      | O =>
          if startswith old s
          then new ++ replace_from old new (length old - 1) s'
          else c :: replace_from old new 0 s'
      end
  end.

(** [s.replace(old, new)]; an empty [old] matches at every position. *)
Definition replace (old new s : str) : str :=
  match old with
  | [] => new ++ flat_map (fun c => c :: new) s
  | _ :: _ => replace_from old new 0 s
  end.

(** [sep.join(parts)] *)
Fixpoint join (sep : str) (parts : list str) : str :=
  match parts with
  | [] => []
  | [p] => p
  | p :: rest => p ++ sep ++ join sep rest
  end.

Definition digit_char (d : N) : char := 48 + d.

Fixpoint digits_of_uint (d : Decimal.uint) : str :=
  match d with
  | Decimal.Nil => []
  | Decimal.D0 d' => digit_char 0 :: digits_of_uint d'
  | Decimal.D1 d' => digit_char 1 :: digits_of_uint d'
  | Decimal.D2 d' => digit_char 2 :: digits_of_uint d'
  | Decimal.D3 d' => digit_char 3 :: digits_of_uint d'
  | Decimal.D4 d' => digit_char 4 :: digits_of_uint d'
  | Decimal.D5 d' => digit_char 5 :: digits_of_uint d'
  | Decimal.D6 d' => digit_char 6 :: digits_of_uint d'
  | Decimal.D7 d' => digit_char 7 :: digits_of_uint d'
  | Decimal.D8 d' => digit_char 8 :: digits_of_uint d'
  | Decimal.D9 d' => digit_char 9 :: digits_of_uint d'
  end.

(** [str(n)] for a non-negative [int], as in an f-string. *)
Definition str_of_nat (n : nat) : str := digits_of_uint (Nat.to_uint n).

(** ** Exceptions *)

Inductive exn :=
  | ValueError | IndexError | KeyError | AttributeError
  | JSONDecodeError | ImportError | APIError.

Inductive Exc (A : Type) :=
  | Ok (a : A)
  | Raise (e : exn).
Arguments Ok {A} a.
Arguments Raise {A} e.

Definition bind {A B} (m : Exc A) (k : A -> Exc B) : Exc B :=
  match m with
  | Ok a => k a
  | Raise e => Raise e
  end.

(** [try: body  except Exception: handler]; every member of [exn] is an
    [Exception]. *)
Definition try_except {A} (body handler : Exc A) : Exc A :=
  match body with
  | Ok a => Ok a
  | Raise _ => handler
  end.

Declare Scope exc_scope.
Delimit Scope exc_scope with exc.
Notation "x <- m ;; k" := (bind m (fun x => k))
  (at level 61, m at next level, right associativity) : exc_scope.
Notation "' p <- m ;; k" := (bind m (fun x => match x with p => k end))
  (at level 61, p pattern, m at next level, right associativity) : exc_scope.
Local Open Scope exc_scope.

(** ** A [dict] with [str] keys: insertion-ordered, keys unique *)

Definition dict := list (str * str).

Fixpoint dict_get (k : str) (m : dict) : option str :=
  match m with
  | [] => None
  | (k', v) :: m' => if str_eqb k k' then Some v else dict_get k m'
  end.

(** [m[k] = v]: overwrite in place, or append a new key. *)
Fixpoint dict_set (k v : str) (m : dict) : dict :=
  match m with
  | [] => [(k, v)]
  | (k', v') :: m' =>
      if str_eqb k k' then (k, v) :: m' else (k', v') :: dict_set k v m'
  end.

Definition dict_keys (m : dict) : list str := map fst m.

(** ** Placeholder protection *)

Definition is_brace (c : char) : bool := (c =? ch "{") || (c =? ch "}").
Definition is_angle (c : char) : bool := (c =? ch "<") || (c =? ch ">").

(** The longest prefix of [s] whose characters all satisfy [p], and the rest. *)
Fixpoint span (p : char -> bool) (s : str) : str * str :=
  match s with
  | [] => ([], [])
  | c :: s' =>
      if p c then let (a, b) := span p s' in (c :: a, b) else ([], s)
  end.

(** The three alternatives of [_PLACEHOLDER_RE], each anchored at the head of
    [s].  The starred class excludes the closing delimiter, so the greedy run
    is the only candidate: giving characters back cannot produce a match. *)
Definition match_double_brace (s : str) : option str :=
  match s with
  | a :: b :: s1 =>
      if (a =? ch "{") && (b =? ch "{") then
        let (body, r) := span (fun c => negb (is_brace c)) s1 in
        match r with
        | c :: d :: _ =>
            if (c =? ch "}") && (d =? ch "}")
            then Some (a :: b :: body ++ [c; d]) else None
        | _ => None
        end
      else None
  | _ => None
  end.

Definition match_single_brace (s : str) : option str :=
  match s with
  | a :: s1 =>
      if a =? ch "{" then
        let (body, r) := span (fun c => negb (is_brace c)) s1 in
        match r with
        | c :: _ => if c =? ch "}" then Some (a :: body ++ [c]) else None
        | [] => None
        end
      else None
  | [] => None
  end.

Definition match_angle (s : str) : option str :=
  match s with
  | a :: s1 =>
      if a =? ch "<" then
        let (body, r) := span (fun c => negb (is_angle c)) s1 in
        match r with
        | c :: _ => if c =? ch ">" then Some (a :: body ++ [c]) else None
        | [] => None
        end
      else None
  | [] => None
  end.

(** [_PLACEHOLDER_RE.match] at the head of [s]: [m.group(0)] if it matches. *)
Definition match_placeholder (s : str) : option str :=
  match match_double_brace s with
  | Some m => Some m
  | None =>
      match match_single_brace s with
      | Some m => Some m
      | None => match_angle s
      end
  end.

Definition placeholder_key (n : nat) : str :=
  py "@@PH" ++ str_of_nat n ++ py "@@".

(** The closure [repl] of [protect_placeholders], with the captured
    [mapping] passed explicitly. *)
Definition repl (m : str) (mapping : dict) : str * dict :=
  let key := placeholder_key (length mapping) in
  (key, dict_set key m mapping).

(** [_PLACEHOLDER_RE.sub(repl, text)]: leftmost non-overlapping matches,
    scanning left to right; [skip] counts the characters of the last match
    still to be passed over. *)
Fixpoint sub_placeholders (skip : nat) (s : str) (mapping : dict)
  : str * dict :=
  match s with
  | [] => ([], mapping)
  | c :: s' =>
      match skip with
      | S k => sub_placeholders k s' mapping
      | O =>
          match match_placeholder s with
          | Some m =>
              let (key, mapping1) := repl m mapping in
              let (out, mapping2) :=
                sub_placeholders (length m - 1) s' mapping1 in
              (key ++ out, mapping2)
          | None =>
              let (out, mapping2) := sub_placeholders 0 s' mapping in
              (c :: out, mapping2)
          end
      end
  end.

Definition protect_placeholders (text : str) : str * dict :=
  sub_placeholders 0 text [].

(** Insertion into a list kept in descending order of length; [x] goes in
    front of the elements that are not longer than it. *)
Fixpoint insert_len_desc (x : str) (l : list str) : list str :=
  match l with
  | [] => [x]
  | y :: l' =>
      if (length y <=? length x)%nat then x :: l
      else y :: insert_len_desc x l'
  end.

(** [sorted(keys, key=len, reverse=True)]: [sorted] is stable, also with
    [reverse=True], so keys of equal length keep their order. *)
Definition sorted_len_desc (keys : list str) : list str :=
  fold_right insert_len_desc [] keys.

Definition restore_placeholders (text : str) (mapping : dict) : str :=
  fold_left
    (fun out k =>
       match dict_get k mapping with
       | Some v => replace k v out
       | None => out
       end)
    (sorted_len_desc (dict_keys mapping)) text.

(** ** Collaborators outside the repository *)

(** A value decoded by [json.loads]; a number keeps its Python [repr]. *)
#[warnings="-register-all"]
Inductive json :=
  | JNull
  | JBool (b : bool)
  | JNum (repr : str)
  | JStr (s : str)
  | JArr (items : list json)
  | JObj (members : list (str * json)).

(** One [client.responses.create(...)] call: the model, the system and the
    user message, and the temperature. *)
Record Request := {
  req_model : str;
  req_system : str;
  req_user : str;
  req_temperature : Q
}.

(** The keyword arguments of [TfidfVectorizer]. *)
Record TfidfParams := {
  ngram_range : nat * nat;
  min_df : nat;
  stop_words : option str
}.

(** A row of the base dataset as [load_base_dataset] returns it. *)
Record BaseRow := {
  base_question : str;
  base_answer : str;
  base_category : str;
  base_intent : str
}.

(** Everything the program calls but does not define. *)
Record World := {
  (** [str.lower], with Python's Unicode case mapping. *)
  lower : str -> str;
  (** [os.getenv("OPENAI_API_KEY")] *)
  OPENAI_API_KEY : option str;
  Client : Type;
  (** [from openai import OpenAI; OpenAI(api_key=key)] *)
  OpenAI : str -> Exc Client;
  (** [client.responses.create(...).output_text], which may be [None]. *)
  responses_create : Client -> Request -> Exc (option str);
  json_loads : str -> Exc json;
  (** [str(v)] for a decoded value that is not itself a [str]. *)
  json_repr : json -> str;
  Vectorizer : Type;
  Matrix : Type;
  (** [vec = TfidfVectorizer(...); X = vec.fit_transform(texts)];
      scikit-learn raises [ValueError] when no term is left. *)
  fit_transform : TfidfParams -> list str -> Exc (Vectorizer * Matrix);
  (** [vec.transform(texts)] *)
  transform : Vectorizer -> list str -> Matrix;
  (** [cosine_similarity(a, X).flatten()] *)
  cosine_similarity : Matrix -> Matrix -> list Q;
  (** [numpy.ndarray.argsort] *)
  argsort : list Q -> list nat;
  (** [f"{x:.2f}"] *)
  format_2f : Q -> str;
  (** [load_base_dataset()], cached for the process. *)
  load_base_dataset : Exc (list BaseRow)
}.

(** What [argsort] promises: the indexes of its argument, in ascending order
    of the values they point at.  The order among equal values is left
    open, as numpy's default sort is not stable. *)
Definition argsort_spec (argsort : list Q -> list nat) : Prop :=
  forall l,
    Permutation (argsort l) (seq 0 (length l)) /\
    forall a b i j,
      nth_error (argsort l) a = Some i -> nth_error (argsort l) b = Some j ->
      (a <= b)%nat -> (nth i l 0 <= nth j l 0)%Q.

(** ** Configuration *)

Definition TOPK : nat := 3.
Definition SIM_THRESHOLD_CUSTOM : Q := 40 # 100.
Definition SIM_THRESHOLD_BASE : Q := 35 # 100.
Definition SIM_THRESHOLD_ROUTE : Q := 25 # 100.

Definition TRANSLATION_MODEL : str := py "gpt-4.1-mini".
Definition FALLBACK_MODEL : str := py "gpt-4.1-mini".

Definition LANG_NAME : dict :=
  [ (py "en", py "English"); (py "sw", py "Kiswahili");
    (py "am", py "Amharic"); (py "so", py "Somali");
    (py "ar", py "Arabic") ].

(** [d.get(k, default)] *)
Definition dict_get_default (k : str) (m : dict) (default : str) : str :=
  match dict_get k m with
  | Some v => v
  | None => default
  end.

Definition DEPARTMENTS : list str :=
  map py [ "ACCOUNT"; "ATM"; "CARD"; "CONTACT"; "FEES";
           "FIND"; "LOAN"; "PASSWORD"; "TRANSFER" ]%string.

Definition DEPT_LABELS : dict :=
  [ (py "ACCOUNT", py "Accounts & Onboarding");
    (py "ATM", py "ATM / Channel Support");
    (py "CARD", py "Cards & Wallets");
    (py "CONTACT", py "Customer Care");
    (py "FEES", py "Charges & Pricing");
    (py "FIND", py "ATM / Branch Locator");
    (py "LOAN", py "Loans & Mortgages");
    (py "PASSWORD", py "Security & Passwords");
    (py "TRANSFER", py "Payments & Transfers") ].

(** A [dict] from department to phrases, in definition order. *)
Definition dept_table := list (str * list str).

Definition DEPT_TRAIN : dept_table :=
  [ (py "ACCOUNT",
      map py [ "open account"; "create account"; "close account";
               "account frozen"; "recent transactions"; "bank statement";
               "account verification"; "kyc update"; "check balance";
               "account balance" ]%string);
    (py "ATM",
      map py [ "atm swallowed my card"; "no cash but debited";
               "failed withdrawal"; "atm reversal";
               "withdrawal dispute" ]%string);
    (py "CARD",
      map py [ "activate card"; "block card"; "cancel card";
               "card not working"; "international usage"; "annual fee";
               "card balance" ]%string);
    (py "CONTACT",
      map py [ "customer care"; "speak to agent"; "human agent";
               "call center"; "contact support" ]%string);
    (py "FEES",
      map py [ "charges too high"; "check fees"; "annual charges";
               "fee dispute" ]%string);
    (py "FIND",
      map py [ "find atm"; "nearest atm"; "find branch";
               "branch near me" ]%string);
    (py "LOAN",
      map py [ "apply for loan"; "loan repayment"; "mortgage"; "cancel loan";
               "loan status"; "interest rate"; "borrow money" ]%string);
    (py "PASSWORD",
      map py [ "reset password"; "forgot password"; "set up password";
               "login problem" ]%string);
    (py "TRANSFER",
      map py [ "cancel transfer"; "make transfer"; "wrong transfer";
               "pending transfer"; "reverse transaction";
               "send money" ]%string) ].

Definition DEPT_KEYWORDS : dept_table :=
  [ (py "ATM",
      map py [ "atm"; "cash withdrawal"; "swallowed";
               "debit but no cash" ]%string);
    (py "CARD",
      map py [ "card"; "visa"; "mastercard"; "debit card";
               "credit card" ]%string);
    (py "LOAN",
      map py [ "loan"; "mortgage"; "repayment"; "interest";
               "borrow" ]%string);
    (py "TRANSFER",
      map py [ "transfer"; "send money"; "reversal"; "pending";
               "reverse transaction" ]%string);
    (py "PASSWORD",
      map py [ "password"; "pin reset"; "forgot"; "login problem" ]%string);
    (py "FEES",
      map py [ "fees"; "charges"; "annual fee"; "pricing" ]%string);
    (py "FIND",
      map py [ "find atm"; "branch"; "nearest atm"; "locator" ]%string);
    (py "CONTACT",
      map py [ "agent"; "customer care"; "call center";
               "contact support" ]%string);
    (py "ACCOUNT",
      map py [ "account"; "statement"; "transactions"; "close account";
               "balance" ]%string) ].

(** ** Persistence *)

(** A row of [custom_faqs]. *)
Record FaqRow := {
  faq_id : Z;
  faq_department : str;
  faq_question : str;
  faq_answer : str;
  faq_tags : option str;
  faq_created_by : option str;
  faq_updated_at : str
}.

(** A row of [chat_logs] as [log_chat] inserts it. *)
Record ChatLog := {
  log_username : str;
  log_user_message : str;
  log_bot_reply : str;
  log_source : str;
  log_score : Q;
  log_department : str
}.

(** The tables the cascade touches.  [custom_faqs] is kept in the order of
    [ORDER BY updated_at DESC]. *)
Record DB := {
  custom_faqs : list FaqRow;
  chat_logs : list ChatLog
}.

Definition is_empty {A} (l : list A) : bool :=
  match l with [] => true | _ :: _ => false end.

(** [fetch_custom_faqs(department)]: the [WHERE department=?] clause when
    a department other than ["ALL"] is given. *)
Definition fetch_custom_faqs (db : DB) (department : option str)
  : list FaqRow :=
  match department with
  | Some d =>
      if negb (is_empty d) && negb (str_eqb d (py "ALL"))
      then filter (fun r => str_eqb (faq_department r) d) (custom_faqs db)
      else custom_faqs db
  | None => custom_faqs db
  end.

Definition log_chat (db : DB)
    (username user_message bot_reply source : str) (score : Q)
    (department : str) : DB :=
  {| custom_faqs := custom_faqs db;
     chat_logs := chat_logs db ++
       [ {| log_username := username; log_user_message := user_message;
            log_bot_reply := bot_reply; log_source := source;
            log_score := score; log_department := department |} ] |}.

(** ** Small Python helpers *)

Definition NL : str := [10].

(** [x or ""] for an optional string. *)
Definition or_empty (o : option str) : str :=
  match o with Some s => s | None => [] end.

(** [l[i]], raising [IndexError] out of range. *)
Definition index {A} (l : list A) (i : nat) : Exc A :=
  match nth_error l i with
  | Some a => Ok a
  | None => Raise IndexError
  end.

(** [l[idxs]] for a list of positions ([DataFrame.iloc], numpy indexing). *)
Fixpoint take {A} (l : list A) (idxs : list nat) : Exc (list A) :=
  match idxs with
  | [] => Ok []
  | i :: rest => a <- index l i ;; r <- take l rest ;; Ok (a :: r)
  end.

Definition Qlt_bool (a b : Q) : bool := negb (Qle_bool b a).

(** [numpy.argmax]: the first position of the largest value. *)
Fixpoint argmax_from (l : list Q) (i best_i : nat) (best : Q) : nat :=
  match l with
  | [] => best_i
  | x :: l' =>
      if Qlt_bool best x then argmax_from l' (S i) i x
      else argmax_from l' (S i) best_i best
  end.

Definition argmax (l : list Q) : Exc nat :=
  match l with
  | [] => Raise ValueError
  | x :: l' => Ok (argmax_from l' 1 0 x)
  end.

(** [re.sub(r"\s+", " ", s)]: every maximal run of whitespace becomes one
    space; [in_run] tells that the run's space has already been written. *)
Fixpoint collapse_ws (in_run : bool) (s : str) : str :=
  match s with
  | [] => []
  | c :: s' =>
      if isspace c
      then if in_run then collapse_ws true s' else 32 :: collapse_ws true s'
      else c :: collapse_ws false s'
  end.

(** [data.get(key, default)]; only a JSON object has [get]. *)
Definition json_get (data : json) (key : str) (default : json) : Exc json :=
  match data with
  | JObj members =>
      Ok match find (fun kv => str_eqb key (fst kv)) members with
         | Some kv => snd kv
         | None => default
         end
  | _ => Raise AttributeError
  end.

(** An element of a list handed to [build_vector_index]. *)
Inductive pyval :=
  | PStr (s : str)
  | PNone
  | PNum (q : Q).

(** [isinstance(t, str) and t.strip()] *)
Definition nonblank_str (t : pyval) : option str :=
  match t with
  | PStr s => if is_empty (strip s) then None else Some s
  | _ => None
  end.

Fixpoint filter_map {A B} (f : A -> option B) (l : list A) : list B :=
  match l with
  | [] => []
  | a :: l' =>
      match f a with
      | Some b => b :: filter_map f l'
      | None => filter_map f l'
      end
  end.

(** ** Canned texts *)

Definition SUPPORTED_LANGS : list str :=
  map py [ "en"; "sw"; "am"; "so"; "ar" ]%string.

Definition DETECT_SYSTEM : str :=
  py "You are a language detector and translator." ++ NL ++
  py "Task:" ++ NL ++
  py "1) Detect the language of the INPUT." ++ NL ++
  py "2) Translate the INPUT to English." ++ NL ++ NL ++
  py "Return ONLY valid JSON with keys: lang, english." ++ NL ++
  py "lang must be one of: en, sw, am, so, ar." ++ NL ++
  py "Preserve any placeholders exactly (tokens like @@PH0@@). Do NOT change them.".

Definition TRANSLATE_SYSTEM (target_lang : str) : str :=
  py "You are a professional translator." ++ NL ++
  py "Translate from English to " ++
    dict_get_default target_lang LANG_NAME target_lang ++ py "." ++ NL ++
  py "Rules:" ++ NL ++
  py "- Output ONLY the translation, no explanations." ++ NL ++
  py "- Preserve placeholders exactly (tokens like @@PH0@@). Do NOT change them." ++ NL ++
  py "- Keep numbers, currency, and product names unchanged unless the target language normally uses a different script.".

Definition FALLBACK_SYSTEM (out_lang : str) : str :=
  py "Your name is Baraka. " ++
  py "You are a helpful Kenyan retail-banking & SACCO support assistant. " ++
  py "Answer ONLY using the provided context. " ++
  py "If context is insufficient, ask a short follow-up question. " ++
  py "Never request PINs or passwords. " ++
  py "Reply in " ++ dict_get_default out_lang LANG_NAME (py "English") ++
  py ".".

Definition ACK_SW : str := py "Sawa—nitajibu kwa Kiswahili kuanzia sasa.".
Definition ACK_AM : str := py "እሺ — ከአሁን በኋላ በአማርኛ እመልሳለሁ።".
Definition ACK_SO : str :=
  py "Haye—laga bilaabo hadda waxaan ku jawaabi doonaa Af-Soomaali.".
Definition ACK_AR : str := py "حسنًا — سأجيب بالعربية من الآن فصاعدًا.".
Definition ACK_EN : str := py "Okay—I'll reply in English from now on.".

(** The two canned answers of [openai_fallback]. *)
Definition MSG_NOT_CONFIDENT : str :=
  py "I’m not fully confident yet. Please rephrase or add more detail.".
Definition MSG_FALLBACK_UNAVAILABLE : str :=
  py "AI fallback is unavailable right now. I’ll answer using SACCO FAQs.".

Definition MSG_KEY_NOT_SET : str :=
  py "OPENAI_API_KEY is not set. Please set your API key to enable translation + multilingual support.".

(** ** The program *)

Section Program.

Context (w : World).

(** *** OpenAI client *)

Definition get_openai_client : Exc (option (Client w)) :=
  match OPENAI_API_KEY w with
  | None => Ok None
  | Some key =>
      if is_empty key then Ok None
      else try_except (client <- OpenAI w key ;; Ok (Some client)) (Ok None)
  end.

(** [str(v)] for a decoded JSON value. *)
Definition py_str (v : json) : str :=
  match v with
  | JStr s => s
  | _ => json_repr w v
  end.

(** *** Language: detect, translate to English, translate back *)

Definition detect_and_translate_to_english (user_text : str)
  : Exc (str * str) :=
  client <- get_openai_client ;;
  match client with
  | None => Ok (py "en", user_text)
  | Some client =>
      let '(protected, mapping) := protect_placeholders user_text in
      let system := DETECT_SYSTEM in
      let user := py "INPUT:" ++ NL ++ protected in
      try_except
        (resp <- responses_create w client
                   {| req_model := TRANSLATION_MODEL; req_system := system;
                      req_user := user; req_temperature := 0 |} ;;
         let raw := strip (or_empty resp) in
         data <- json_loads w raw ;;
         lang_v <- json_get data (py "lang") (JStr (py "en")) ;;
         let lang := lower w (strip (py_str lang_v)) in
         eng_v <- json_get data (py "english") (JStr protected) ;;
         let eng := py_str eng_v in
         let lang :=
           if existsb (str_eqb lang) SUPPORTED_LANGS then lang else py "en" in
         let eng := restore_placeholders eng mapping in
         Ok (lang, eng))
        (Ok (py "en", user_text))
  end.

Definition translate_from_english (text_en target_lang : str) : Exc str :=
  if str_eqb target_lang (py "en") then Ok text_en
  else
    client <- get_openai_client ;;
    match client with
    | None => Ok text_en
    | Some client =>
        let '(protected, mapping) := protect_placeholders text_en in
        let system := TRANSLATE_SYSTEM target_lang in
        try_except
          (resp <- responses_create w client
                     {| req_model := TRANSLATION_MODEL; req_system := system;
                        req_user := protected; req_temperature := 0 |} ;;
           let out := strip (or_empty resp) in
           let out := restore_placeholders out mapping in
           Ok out)
          (Ok text_en)
    end.

(** [(handled, message, forced_language)] *)
Definition handle_language_command (user_text : str)
  : bool * option str * option str :=
  let t := lower w (strip user_text) in
  if is_empty t then (false, None, None)
  else if contains (py "kiswahili") t || contains (py "swahili") t
  then (true, Some ACK_SW, Some (py "sw"))
  else if contains (py "amharic") t || contains (py "አማርኛ") user_text
  then (true, Some ACK_AM, Some (py "am"))
  else if contains (py "somali") t || contains (py "soomaali") t
  then (true, Some ACK_SO, Some (py "so"))
  else if contains (py "arabic") t || contains (py "العربية") user_text
          || contains (py "عربي") user_text
  then (true, Some ACK_AR, Some (py "ar"))
  else if contains (py "english") t
  then (true, Some ACK_EN, Some (py "en"))
  else (false, None, None).

(** *** Vector index *)

Definition build_vector_index (texts : list pyval)
  : Exc (Vectorizer w * Matrix w) :=
  let texts := filter_map nonblank_str texts in
  let params :=
    if (length texts <? 3)%nat
    then {| ngram_range := (1, 2)%nat; min_df := 1; stop_words := None |}
    else {| ngram_range := (1, 2)%nat; min_df := 2;
            stop_words := Some (py "english") |} in
  fit_transform w params texts.

(** *** Routing and retrieval *)

Definition normalize (text : str) : str :=
  let text := strip (lower w text) in
  collapse_ws false text.

Definition build_dept_router
  : Exc (Vectorizer w * Matrix w * list str) :=
  let dept_texts := flat_map (fun '(d, samples) => samples) DEPT_TRAIN in
  let dept_labels :=
    flat_map (fun '(d, samples) => map (fun _ => d) samples) DEPT_TRAIN in
  '(vec, X) <- build_vector_index (map PStr dept_texts) ;;
  Ok (vec, X, dept_labels).

(** The two nested loops over [DEPT_KEYWORDS.items()]: the first department,
    in definition order, one of whose keywords occurs in [t]. *)
Fixpoint scan_keywords (t : str) (table : dept_table) : option str :=
  match table with
  | [] => None
  | (dept, kws) :: rest =>
      if existsb (fun kw => contains kw t) kws then Some dept
      else scan_keywords t rest
  end.

Definition route_department (text_en : str) : Exc (str * Q * str) :=
  let t := normalize text_en in
  match scan_keywords t DEPT_KEYWORDS with
  | Some dept => Ok (dept, 1%Q, py "rule")
  | None =>
      '(vec, X, labels) <- build_dept_router ;;
      let tv := transform w vec [t] in
      let sims := cosine_similarity w tv X in
      best_idx <- argmax sims ;;
      best_dept <- index labels best_idx ;;
      best_score <- index sims best_idx ;;
      if Qlt_bool best_score SIM_THRESHOLD_ROUTE
      then Ok (py "CONTACT", best_score, py "tfidf_lowconf")
      else Ok (best_dept, best_score, py "tfidf")
  end.

(** The rows picked by [faq_df.iloc[idxs]], each with its [score]. *)
Definition retrieve_best {Row : Type} (query_en : str) (faq_df : list Row)
    (vec : Vectorizer w) (X : Matrix w) (topk : nat)
  : Exc (list (Row * Q)) :=
  let qn := normalize query_en in
  let qv := transform w vec [qn] in
  let sims := cosine_similarity w qv X in
  let idxs := firstn topk (rev (argsort w sims)) in
  results <- take faq_df idxs ;;
  scores <- take sims idxs ;;
  Ok (combine results scores).

Definition answer_from_custom_first (db : DB) (query_en dept : str)
  : Exc (option (str * Q * str)) :=
  let custom_df := fetch_custom_faqs db (Some dept) in
  if is_empty custom_df then Ok None
  else
    let questions :=
      filter (fun q => negb (is_empty (strip q)))
             (map faq_question custom_df) in
    if is_empty questions then Ok None
    else
      '(vec_c, X_c) <- build_vector_index (map PStr questions) ;;
      res <- retrieve_best query_en custom_df vec_c X_c TOPK ;;
      best <- index res 0 ;;
      if Qle_bool SIM_THRESHOLD_CUSTOM (snd best)
      then Ok (Some (faq_answer (fst best), snd best, py "custom"))
      else Ok None.

Definition answer_from_base (query_en dept : str) (base_df : list BaseRow)
  : Exc (option (str * Q * str)) :=
  let base_dept :=
    filter (fun r => str_eqb (base_category r) dept) base_df in
  let base_dept := if is_empty base_dept then base_df else base_dept in
  '(vec_d, X_d) <-
     build_vector_index (map (fun r => PStr (base_question r)) base_dept) ;;
  res <- retrieve_best query_en base_dept vec_d X_d TOPK ;;
  best <- index res 0 ;;
  if Qle_bool SIM_THRESHOLD_BASE (snd best)
  then Ok (Some (base_answer (fst best), snd best, py "base"))
  else Ok None.

Definition openai_fallback (query_en : str) (context_snippets : list str)
    (out_lang : str) : Exc (str * Q * str) :=
  client <- get_openai_client ;;
  match client with
  | None => Ok (MSG_NOT_CONFIDENT, 0%Q, py "fallback")
  | Some client =>
      try_except
        (let system := FALLBACK_SYSTEM out_lang in
         let user :=
           py "Customer question (English): " ++ query_en ++ NL ++ NL ++
           py "Context (FAQ snippets, English):" ++ NL ++
           join (NL ++ py "---" ++ NL) context_snippets in
         resp <- responses_create w client
                   {| req_model := FALLBACK_MODEL; req_system := system;
                      req_user := user; req_temperature := 2 # 10 |} ;;
         Ok (strip (or_empty resp), 0%Q, py "openai"))
        (Ok (MSG_FALLBACK_UNAVAILABLE, 0%Q, py "fallback"))
  end.

(** [(ans_out, source, score)] and the database after [log_chat]. *)
Definition generate_reply (db : DB)
    (user_message_raw query_en username dept out_lang : str)
  : Exc (str * str * Q * DB) :=
  base_df <- load_base_dataset w ;;
  custom_hit <- answer_from_custom_first db query_en dept ;;
  match custom_hit with
  | Some (ans_en, score, source) =>
      ans_out <- translate_from_english ans_en out_lang ;;
      let db := log_chat db username user_message_raw ans_out source score
                  dept in
      Ok (ans_out, source, score, db)
  | None =>
      base_hit <- answer_from_base query_en dept base_df ;;
      match base_hit with
      | Some (ans_en, score, source) =>
          ans_out <- translate_from_english ans_en out_lang ;;
          let db := log_chat db username user_message_raw ans_out source
                      score dept in
          Ok (ans_out, source, score, db)
      | None =>
          '(vec_b, X_b) <-
             build_vector_index
               (map (fun r => PStr (base_question r)) base_df) ;;
          top_base <- retrieve_best query_en base_df vec_b X_b TOPK ;;
          let snippets :=
            map (fun r => py "Q: " ++ base_question (fst r) ++ NL ++
                          py "A: " ++ base_answer (fst r)) top_base in
          '(ans_out, score, source) <-
             openai_fallback query_en snippets out_lang ;;
          let db := log_chat db username user_message_raw ans_out source
                      score dept in
          Ok (ans_out, source, score, db)
      end
  end.

(** *** The chat page *)

(** [st.session_state] as far as the chat page uses it; a message is a
    [(role, content)] pair. *)
Record Session := {
  user : str;
  preferred_lang : option str;
  messages : list (str * pyval)
}.

Definition append_message (st : Session) (role : str) (content : pyval)
  : Session :=
  {| user := user st; preferred_lang := preferred_lang st;
     messages := messages st ++ [(role, content)] |}.

Definition set_preferred_lang (st : Session) (lang : option str) : Session :=
  {| user := user st; preferred_lang := lang; messages := messages st |}.

Definition opt_val (o : option str) : pyval :=
  match o with Some s => PStr s | None => PNone end.

(** [a or b] for an optional string [a]. *)
Definition or_else (a : option str) (b : str) : str :=
  match a with
  | Some s => if is_empty s then b else s
  | None => b
  end.

(** [str(d.get(k))], as an f-string shows it. *)
Definition show_get (k : str) (m : dict) : str :=
  match dict_get k m with Some v => v | None => py "None" end.

(** The body of [if send and q.strip():] in [chat_page].  [st.rerun()]
    ends the script run, so every branch of the model ends at its
    [st.rerun()]. *)
Definition chat_page_send (st : Session) (db : DB) (q : str)
  : Exc (Session * DB) :=
  if is_empty (strip q) then Ok (st, db)
  else
    let '(handled, msg, forced) := handle_language_command (strip q) in
    if handled then
      let st := set_preferred_lang st forced in
      let st := append_message st (py "user") (PStr (strip q)) in
      let st := append_message st (py "assistant") (opt_val msg) in
      Ok (st, db)
    else
      let st := append_message st (py "user") (PStr (strip q)) in
      if is_empty (or_empty (OPENAI_API_KEY w)) then
        let st := append_message st (py "assistant") (PStr MSG_KEY_NOT_SET) in
        Ok (st, db)
      else
        '(detected_lang, q_en) <- detect_and_translate_to_english (strip q) ;;
        let out_lang := or_else (preferred_lang st) detected_lang in
        '(dept, dscore, dmethod) <- route_department q_en ;;
        '(ans, source, score, db) <-
           generate_reply db (strip q) q_en (user st) dept out_lang ;;
        let footer :=
          if str_eqb source (py "custom")
          then py " Dept FAQ (" ++ dept ++ py ")"
          else if str_eqb source (py "base")
          then py " Base dataset (" ++ dept ++ py ")"
          else if str_eqb source (py "openai")
          then py " AI fallback (" ++ dept ++ py ")"
          else py " Low confidence (" ++ dept ++ py ")" in
        let content :=
          ans ++ NL ++ NL ++
          py "— Department: " ++ dept ++ py " (" ++
            show_get dept DEPT_LABELS ++ py ") | " ++
          py "Routing: " ++ format_2f w dscore ++ py " (" ++ dmethod ++
            py ")" ++ NL ++
          py "— Source: " ++ footer in
        let st := append_message st (py "assistant") (PStr content) in
        Ok (st, db).

End Program.

(** ** A small concrete world

    Used to run the program on concrete inputs.  Case mapping covers ASCII;
    the vector space is the crudest one that agrees with TF-IDF on the
    inputs it is used for: a query has similarity 1 with a document equal to
    it and 0 with any other, and fitting an empty corpus raises. *)

Definition ascii_lower (c : char) : char :=
  if (65 <=? c) && (c <=? 90) then c + 32 else c.

Fixpoint insert_by_score (sims : list Q) (i : nat) (l : list nat)
  : list nat :=
  match l with
  | [] => [i]
  | j :: l' =>
      if Qle_bool (nth i sims 0%Q) (nth j sims 0%Q) then i :: l
      else j :: insert_by_score sims i l'
  end.

(** A stable ascending argsort by insertion. *)
Definition argsort_insertion (sims : list Q) : list nat :=
  fold_right (insert_by_score sims) [] (seq 0 (length sims)).

Definition exact_match_similarity (qv X : list str) : list Q :=
  match qv with
  | q :: _ => map (fun doc => if str_eqb doc q then 1%Q else 0%Q) X
  | [] => map (fun _ => 0%Q) X
  end.

Definition demo_base : list BaseRow :=
  [ {| base_question := py "how do i activate my card";
       base_answer := py "Use the mobile app to activate {{card}}.";
       base_category := py "CARD"; base_intent := py "activate_card" |};
    {| base_question := py "how do i apply for a loan";
       base_answer := py "Visit any branch with your ID.";
       base_category := py "LOAN"; base_intent := py "apply_for_loan" |} ].

(** [key] is the value of [OPENAI_API_KEY]; [reply] is what every request
    to the text collaborator yields. *)
Definition demo_world (key : option str) (reply : Exc (option str)) : World :=
  {| lower := map ascii_lower;
     OPENAI_API_KEY := key;
     Client := unit;
     OpenAI := fun _ => Ok tt;
     responses_create := fun _ _ => reply;
     json_loads := fun _ => Raise JSONDecodeError;
     json_repr := fun _ => py "None";
     Vectorizer := list str;
     Matrix := list str;
     fit_transform := fun _ texts =>
       if is_empty texts then Raise ValueError else Ok (texts, texts);
     transform := fun _ texts => texts;
     cosine_similarity := exact_match_similarity;
     argsort := argsort_insertion;
     format_2f := fun _ => py "0.00";
     load_base_dataset := Ok demo_base |}.

Definition offline_world : World := demo_world None (Raise APIError).

(** ** The index helper of the admin forms *)

(** [l.index(x)]: the first position of [x], [ValueError] when absent. *)
Fixpoint list_index (x : str) (l : list str) : Exc nat :=
  match l with
  | [] => Raise ValueError
  | y :: l' =>
      if str_eqb y x then Ok 0%nat
      else i <- list_index x l' ;; Ok (S i)
  end.

Section SafeIndex.

(** The options and the value are any objects; [str_of] is Python's
    [str(...)] on them and [upper] is [str.upper]. *)
Context {Value : Type} (str_of : Value -> str) (upper : str -> str).

Definition safe_index (options : list Value)
    (value fallback_value : option Value) : Exc nat :=
  let value_norm :=
    match value with
    | None => []
    | Some v => upper (strip (str_of v))
    end in
  let options_norm := map (fun o => upper (strip (str_of o))) options in
  if existsb (fun o => str_eqb o value_norm) options_norm
  then list_index value_norm options_norm
  else
    match fallback_value with
    | Some f =>
        let fallback_norm := upper (strip (str_of f)) in
        if existsb (fun o => str_eqb o fallback_norm) options_norm
        then list_index fallback_norm options_norm
        else Ok 0%nat
    | None => Ok 0%nat
    end.

End SafeIndex.

Definition ascii_upper (c : char) : char :=
  if (97 <=? c) && (c <=? 122) then c - 32 else c.

(** ** Password hashing and the users table *)

Definition bytes := list N.

(** [os.urandom], [hashlib.pbkdf2_hmac], [base64] and the codecs of [str]
    and [bytes].  [Rng] is the state of the operating system's generator,
    threaded through the calls that draw from it. *)
Record Crypto := {
  Rng : Type;
  urandom : Rng -> nat -> bytes * Rng;
  pbkdf2_hmac : str -> bytes -> bytes -> N -> bytes;
  b64encode : bytes -> bytes;
  b64decode : bytes -> Exc bytes;
  str_encode : str -> Exc bytes;
  bytes_decode : bytes -> Exc str
}.

(** What [is_pbkdf2_hash] and [verify_password] may be handed as [stored]:
    [None], a [bytes] object, a [str], or an object of another type. *)
Inductive stored_val :=
  | SNone
  | SBytes (b : bytes)
  | SStr (s : str)
  | SOther.

(** A row of [users]. *)
Record UserRow := {
  user_name : str;
  user_pw_hash : stored_val;
  user_role : str
}.

(** The outcome of a statement on a table with constraints: the table
    after it, or [sqlite3.IntegrityError]. *)
Inductive Sql (A : Type) :=
  | Done (a : A)
  | IntegrityError.
Arguments Done {A} a.
Arguments IntegrityError {A}.

(** [CHECK(role IN ('user','admin'))] *)
Definition role_check (role : str) : bool :=
  str_eqb role (py "user") || str_eqb role (py "admin").

Section Passwords.

Context (lib : Crypto).

Definition hash_password (rng : Rng lib) (password : str)
    (salt : option bytes) : Exc (str * Rng lib) :=
  let '(salt, rng) :=
    match salt with
    | None => urandom lib rng 16
    | Some s => (s, rng)
    end in
  pw <- str_encode lib password ;;
  let key := pbkdf2_hmac lib (py "sha256") pw salt 200000 in
  out <- bytes_decode lib (b64encode lib (salt ++ key)) ;;
  Ok (out, rng).

(** Every [return False] of the first half leaves no text to decode. *)
Definition is_pbkdf2_hash (stored : stored_val) : bool :=
  let text :=
    match stored with
    | SNone => None
    | SBytes b =>
        match bytes_decode lib b with
        | Ok s => Some s
        | Raise _ => None
        end
    | SStr s => Some s
    | SOther => None
    end in
  match text with
  | None => false
  | Some s =>
      match (b <- str_encode lib s ;; b64decode lib b) with
      | Ok raw => (48 <=? length raw)%nat
      | Raise _ => false
      end
  end.

Definition verify_password (password : str) (stored : stored_val)
  : Exc bool :=
  if negb (is_pbkdf2_hash stored) then Ok false
  else
    stored <- match stored with
              | SBytes b => bytes_decode lib b
              | SStr s => Ok s
              | SNone | SOther => Raise AttributeError
              end ;;
    b <- str_encode lib stored ;;
    raw <- b64decode lib b ;;
    let salt := firstn 16 raw in
    let key := skipn 16 raw in
    pw <- str_encode lib password ;;
    let new_key := pbkdf2_hmac lib (py "sha256") pw salt 200000 in
    Ok (str_eqb new_key key).

(** [SELECT ... FROM users WHERE username=?] and [fetchone()]. *)
Definition select_user (users : list UserRow) (username : str)
  : option UserRow :=
  find (fun r => str_eqb (user_name r) username) users.

Definition seed_or_upgrade_user (rng : Rng lib) (users : list UserRow)
    (username password role : str)
  : Exc (Sql (list UserRow) * Rng lib) :=
  let row := select_user users username in
  '(new_hash, rng) <- hash_password rng password None ;;
  match row with
  | None =>
      if role_check role
      then Ok (Done (users ++ [ {| user_name := username;
                                   user_pw_hash := SStr new_hash;
                                   user_role := role |} ]), rng)
      else Ok (IntegrityError, rng)
  | Some r =>
      if negb (is_pbkdf2_hash (user_pw_hash r)) then
        if role_check role
        then Ok (Done (map (fun r' =>
                              if str_eqb (user_name r') username
                              then {| user_name := user_name r';
                                      user_pw_hash := SStr new_hash;
                                      user_role := role |}
                              else r') users), rng)
        else Ok (IntegrityError, rng)
      else Ok (Done users, rng)
  end.

Definition verify_user (users : list UserRow) (username password : str)
  : Exc (option str) :=
  match select_user users username with
  | None => Ok None
  | Some row =>
      ok <- verify_password password (user_pw_hash row) ;;
      if ok then Ok (Some (user_role row)) else Ok None
  end.

End Passwords.

(** A stand-in library for running the password code: the text of a hash
    is its bytes, the derived key is the first 32 bytes of password, salt
    and padding, and the generator counts its draws. *)
Definition toy_crypto : Crypto :=
  {| Rng := N;
     urandom := fun rng n => (repeat rng n, rng + 1);
     pbkdf2_hmac := fun _ pw salt _ =>
       firstn 32 (pw ++ salt ++ repeat 0 32);
     b64encode := fun raw => raw;
     b64decode := fun b => Ok b;
     str_encode := fun s => Ok s;
     bytes_decode := fun b => Ok b |}.

(** ** Complaints *)

(** A row of [complaints]; [status] and [internal_notes] get the defaults
    of the table when [create_complaint] inserts it. *)
Record Complaint := {
  cmp_id : nat;
  cmp_username : str;
  cmp_text : str;
  cmp_department : str;
  cmp_status : str;
  cmp_priority : str;
  cmp_summary : option str;
  cmp_internal_notes : option str
}.

(** The database with the complaints table.  [complaints_seq] is the entry
    of [sqlite_sequence] for it: with [AUTOINCREMENT] a new id is one more
    than the largest id the table has ever held. *)
Record Store := {
  store_db : DB;
  complaints : list Complaint;
  complaints_seq : nat
}.

(** [create_complaint]: the id of the new row and the store after it. *)
Definition create_complaint (store : Store)
    (username text department priority : str) (summary : option str)
  : nat * Store :=
  let cid :=
    S (Nat.max (complaints_seq store)
         (list_max (map cmp_id (complaints store)))) in
  (cid,
   {| store_db := store_db store;
      complaints := complaints store ++
        [ {| cmp_id := cid; cmp_username := username; cmp_text := text;
             cmp_department := department; cmp_status := py "Open";
             cmp_priority := priority; cmp_summary := summary;
             cmp_internal_notes := None |} ];
      complaints_seq := cid |}).

(** A value bound to a [?] of a statement. *)
Inductive sqlval :=
  | SqlText (s : str)
  | SqlInt (n : nat).

(** The statement [fetch_complaints] runs and its parameters. *)
Definition fetch_complaints_query (dept status : str) : str * list sqlval :=
  let q := py "SELECT * FROM complaints WHERE 1=1" in
  let params := [] in
  let '(q, params) :=
    if negb (str_eqb dept (py "ALL"))
    then (q ++ py " AND department=?", params ++ [SqlText dept])
    else (q, params) in
  let '(q, params) :=
    if negb (str_eqb status (py "ALL"))
    then (q ++ py " AND status=?", params ++ [SqlText status])
    else (q, params) in
  (q ++ py " ORDER BY created_at DESC", params).

(** Truth value of an optional string: [None] and the empty string are
    false. *)
Definition truthy (o : option str) : bool :=
  match o with
  | Some s => negb (is_empty s)
  | None => false
  end.

(** The statement [update_complaint] runs and its parameters. *)
Definition update_complaint_query (cid : nat)
    (status priority internal_notes : option str) : str * list sqlval :=
  let fields := [] in
  let params := [] in
  let '(fields, params) :=
    if truthy status
    then (fields ++ [py "status=?"], params ++ [SqlText (or_empty status)])
    else (fields, params) in
  let '(fields, params) :=
    if truthy priority
    then (fields ++ [py "priority=?"],
          params ++ [SqlText (or_empty priority)])
    else (fields, params) in
  let '(fields, params) :=
    match internal_notes with
    | Some notes =>
        (fields ++ [py "internal_notes=?"], params ++ [SqlText notes])
    | None => (fields, params)
    end in
  let fields := fields ++ [py "updated_at=CURRENT_TIMESTAMP"] in
  let q := py "UPDATE complaints SET " ++ join (py ", ") fields ++
           py " WHERE id=?" in
  (q, params ++ [SqlInt cid]).

(** [st.session_state] on the complaint page: the session and the ticket
    the page has last filed. *)
Record PageState := {
  session : Session;
  active_ticket : option nat
}.

(** What the complaint page shows after the form: nothing, the notice that
    the key is missing, or the ticket with the instant reply. *)
Inductive Shown :=
  | ShownNothing
  | ShownKeyError
  | ShownTicket (ticket_id : nat) (dept : str) (score : Q) (method : str)
      (ans source : str) (sc : Q).

Section ComplaintPage.

Context (w : World).

(** The form of [complaint_page] and the body of
    [if submitted and text.strip():]. *)
Definition complaint_page_submit (ps : PageState) (store : Store)
    (submitted : bool) (text priority : str)
  : Exc (PageState * Store * Shown) :=
  if submitted && negb (is_empty (strip text)) then
    if is_empty (or_empty (OPENAI_API_KEY w)) then
      Ok (ps, store, ShownKeyError)
    else
      '(detected_lang, text_en) <-
         detect_and_translate_to_english w (strip text) ;;
      let out_lang := or_else (preferred_lang (session ps)) detected_lang in
      '(dept, score, method) <- route_department w text_en ;;
      let summary :=
        firstn 180 (strip text) ++
        (if (180 <? length (strip text))%nat then py "..." else []) in
      let '(ticket_id, store) :=
        create_complaint store (user (session ps)) (strip text) dept
          priority (Some summary) in
      let ps := {| session := session ps;
                   active_ticket := Some ticket_id |} in
      '(ans, source, sc, db) <-
         generate_reply w (store_db store) (strip text) text_en
           (user (session ps)) dept out_lang ;;
      let store := {| store_db := db; complaints := complaints store;
                      complaints_seq := complaints_seq store |} in
      Ok (ps, store, ShownTicket ticket_id dept score method ans source sc)
  else Ok (ps, store, ShownNothing).

End ComplaintPage.

(** ** Deleting a FAQ, start-up and login *)

Definition delete_custom_faq (db : DB) (fid : Z) : DB :=
  {| custom_faqs :=
       filter (fun r => negb (faq_id r =? fid)%Z) (custom_faqs db);
     chat_logs := chat_logs db |}.

(** [UPDATE custom_faqs SET department='CONTACT' WHERE
    UPPER(department)='GENERAL'] of [init_db]; SQLite's [UPPER] folds the
    ASCII letters only. *)
Definition migrate_general (db : DB) : DB :=
  {| custom_faqs :=
       map (fun r =>
              if str_eqb (map ascii_upper (faq_department r)) (py "GENERAL")
              then {| faq_id := faq_id r; faq_department := py "CONTACT";
                      faq_question := faq_question r;
                      faq_answer := faq_answer r; faq_tags := faq_tags r;
                      faq_created_by := faq_created_by r;
                      faq_updated_at := faq_updated_at r |}
              else r) (custom_faqs db);
     chat_logs := chat_logs db |}.

(** [st.session_state] as far as login and the router use it. *)
Record AppState := {
  app_user : option str;
  app_role : option str;
  app_page : option str
}.

(** The page function [main] calls. *)
Inductive Page :=
  | PLogin
  | PAdmin
  | PUserHome
  | PComplaint
  | PChat.

Section Startup.

Context (lib : Crypto).

(** [init_db] on tables that exist: the migration of the old department
    and the two seeded accounts.  Nothing is committed when a statement
    raises. *)
Definition init_db (rng : Rng lib) (users : list UserRow) (db : DB)
  : Exc (Sql (list UserRow * DB) * Rng lib) :=
  let db := migrate_general db in
  '(seeded, rng) <-
     seed_or_upgrade_user lib rng users (py "admin") (py "admin123")
       (py "admin") ;;
  match seeded with
  | IntegrityError => Ok (IntegrityError, rng)
  | Done users =>
      '(seeded, rng) <-
         seed_or_upgrade_user lib rng users (py "user") (py "user123")
           (py "user") ;;
      match seeded with
      | IntegrityError => Ok (IntegrityError, rng)
      | Done users => Ok (Done (users, db), rng)
      end
  end.

(** The body of [if submitted:] in [login_page]. *)
Definition login_submit (users : list UserRow) (st : AppState)
    (username password : str) : Exc AppState :=
  role <- verify_user lib users username password ;;
  if truthy role then
    Ok {| app_user := Some username;
          app_role := role;
          app_page := Some (if str_eqb (or_empty role) (py "user")
                            then py "home" else py "admin") |}
  else Ok st.

End Startup.

(** The dispatch of [main], with ["login"] for a missing page. *)
Definition main (st : AppState) : Page :=
  let page :=
    match app_page st with
    | Some p => p
    | None => py "login"
    end in
  if str_eqb page (py "login") then PLogin
  else if match app_role st with
          | Some r => str_eqb r (py "admin")
          | None => false
          end
  then PAdmin
  else if str_eqb page (py "home") then PUserHome
  else if str_eqb page (py "complaint") then PComplaint
  else PChat.

(* ================================================================== *)
(** * Part II: vocabulary of the properties                            *)
(* ================================================================== *)

(** ** Markers and pieces of a protected text *)

Definition is_digit (c : char) : Prop := 48 <= c <= 57.

Definition AT : char := 64.

Definition no_at (s : str) : Prop := ~ In AT s.

(** A protected text seen as a sequence of pieces: the characters that were
    copied and, for every match, the marker that stands for it. *)
Inductive piece :=
  | Lit (c : char)
  | Mark (n : nat) (orig : str).

(** The text with the markers in place. *)
Definition render (ps : list piece) : str :=
  flat_map (fun p => match p with
                     | Lit c => [c]
                     | Mark n _ => placeholder_key n
                     end) ps.

(** The text with every marker replaced by what it stands for. *)
Definition plain (ps : list piece) : str :=
  flat_map (fun p => match p with
                     | Lit c => [c]
                     | Mark _ o => o
                     end) ps.

Definition entries (ps : list piece) : dict :=
  flat_map (fun p => match p with
                     | Lit _ => []
                     | Mark n o => [(placeholder_key n, o)]
                     end) ps.

(** The pieces after marker [i] has been put back. *)
Definition settle (i : nat) (ps : list piece) : list piece :=
  flat_map (fun p => match p with
                     | Lit c => [Lit c]
                     | Mark n o => if Nat.eqb n i then map Lit o else [Mark n o]
                     end) ps.

(** The pieces [sub_placeholders] goes through, numbering markers from [n]. *)
Fixpoint pieces (skip : nat) (s : str) (n : nat) : list piece :=
  match s with
  | [] => []
  | c :: s' =>
      match skip with
      | S k => pieces k s' n
      | O =>
          match match_placeholder s with
          | Some m => Mark n m :: pieces (length m - 1) s' (S n)
          | None => Lit c :: pieces 0 s' n
          end
      end
  end.

Definition no_PH (s : str) : Prop := contains [80; 72] s = false.

Definition restore_step (mapping : dict) (out k : str) : str :=
  match dict_get k mapping with
  | Some v => replace k v out
  | None => out
  end.

Definition nonempty_prefix (m s : str) : Prop :=
  exists c m' rest, m = c :: m' /\ s = m ++ rest.

(** The keys minted so far are exactly the markers [0 .. len(mapping) - 1]. *)
Definition minted (mapping : dict) : Prop :=
  dict_keys mapping = map placeholder_key (seq 0 (length mapping)).

(** ** Keyword rules *)

Definition dept_matches (t : str) (kws : list str) : bool :=
  existsb (fun kw => contains kw t) kws.

(** No department of [table] has a keyword occurring in [t]. *)
Definition no_keyword (t : str) (table : dept_table) : Prop :=
  forall d kws kw, In (d, kws) table -> In kw kws -> contains kw t = false.

(** [d] is the first department of [table], in its order, that has a keyword
    occurring in [t]. *)
Definition first_keyword_dept (t : str) (table : dept_table) (d : str)
  : Prop :=
  exists pre kws post,
    table = pre ++ (d, kws) :: post /\
    (exists kw, In kw kws /\ contains kw t = true) /\
    no_keyword t pre.

(** ** Kept texts, requests and the table of language rules *)

(** The spec's words: an entry is kept when it is a string that is neither
    empty nor whitespace only. *)
Definition kept_texts (texts : list pyval) : list str :=
  flat_map (fun t => match t with
                     | PStr s => if forallb isspace s then [] else [s]
                     | _ => []
                     end) texts.

(** The request [detect_and_translate_to_english] sends for [user_text]. *)
Definition detect_request (user_text : str) : Request :=
  {| req_model := TRANSLATION_MODEL; req_system := DETECT_SYSTEM;
     req_user := py "INPUT:" ++ NL ++ fst (protect_placeholders user_text);
     req_temperature := 0 |}.

(** The spec's table of rules, in its order: whether the rule's trigger
    is met, its acknowledgement and its language code.  Latin triggers are
    looked for in the stripped, lower-cased text, native-script ones in the
    text as typed. *)
Definition language_rules (w : World) (user_text : str)
  : list (bool * str * str) :=
  let t := lower w (strip user_text) in
  [ (contains (py "kiswahili") t || contains (py "swahili") t,
     ACK_SW, py "sw");
    (contains (py "amharic") t || contains (py "አማርኛ") user_text,
     ACK_AM, py "am");
    (contains (py "somali") t || contains (py "soomaali") t,
     ACK_SO, py "so");
    (contains (py "arabic") t || contains (py "العربية") user_text
       || contains (py "عربي") user_text,
     ACK_AR, py "ar");
    (contains (py "english") t, ACK_EN, py "en") ].

(** First matching rule wins. *)
Definition first_rule (rules : list (bool * str * str))
  : bool * option str * option str :=
  match find (fun r => fst (fst r)) rules with
  | Some r => (true, Some (snd (fst r)), Some (snd r))
  | None => (false, None, None)
  end.

(** ** The fallback tier *)




(** ** Concrete tables and worlds *)


(** A world with a key in which every request to the text collaborator
    yields the same Swahili sentence. *)
Definition swahili_world : World :=
  demo_world (Some (py "sk-demo"))
    (Ok (Some (py " Mkopo wako unasubiri ukaguzi. "))).

Definition loan_db : DB :=
  {| custom_faqs :=
       [ {| faq_id := 1; faq_department := py "LOAN";
            faq_question := py "loan status";
            faq_answer := py "Your loan is pending review.";
            faq_tags := None; faq_created_by := Some (py "admin");
            faq_updated_at := py "2025-01-01 10:00:00" |} ];
     chat_logs := [] |}.

Definition score_le (sims : list Q) (i j : nat) : Prop :=
  (nth i sims 0 <= nth j sims 0)%Q.

(** A custom FAQ table in which the question of the most recently updated
    LOAN entry has been emptied through the admin form. *)
Definition blank_question_db : DB :=
  {| custom_faqs :=
       [ {| faq_id := 2; faq_department := py "LOAN";
            faq_question := [];
            faq_answer := py "Cards are replaced within 5 working days.";
            faq_tags := None; faq_created_by := Some (py "admin");
            faq_updated_at := py "2025-02-01 09:00:00" |};
         {| faq_id := 1; faq_department := py "LOAN";
            faq_question := py "loan status";
            faq_answer := py "Your loan is pending review.";
            faq_tags := None; faq_created_by := Some (py "admin");
            faq_updated_at := py "2025-01-01 10:00:00" |} ];
     chat_logs := [] |}.

(** ** Further vocabulary *)

(** The request [translate_from_english] sends. *)
Definition translate_request (text_en target_lang : str) : Request :=
  {| req_model := TRANSLATION_MODEL;
     req_system := TRANSLATE_SYSTEM target_lang;
     req_user := fst (protect_placeholders text_en);
     req_temperature := 0 |}.

(** The five results [handle_language_command] has for a command. *)
Definition language_commands : list (bool * option str * option str) :=
  [ (true, Some ACK_SW, Some (py "sw"));
    (true, Some ACK_AM, Some (py "am"));
    (true, Some ACK_SO, Some (py "so"));
    (true, Some ACK_AR, Some (py "ar"));
    (true, Some ACK_EN, Some (py "en")) ].

(** A world whose collaborator always answers with a JSON object that
    names the language and leaves out the translation. *)
Definition lang_only_world : World :=
  {| lower := map ascii_lower;
     OPENAI_API_KEY := Some (py "sk-demo");
     Client := unit;
     OpenAI := fun _ => Ok tt;
     responses_create := fun _ _ => Ok (Some (py "{}"));
     json_loads := fun _ => Ok (JObj [(py "lang", JStr (py " SW "))]);
     json_repr := fun _ => py "None";
     Vectorizer := list str;
     Matrix := list str;
     fit_transform := fun _ texts =>
       if is_empty texts then Raise ValueError else Ok (texts, texts);
     transform := fun _ texts => texts;
     cosine_similarity := exact_match_similarity;
     argsort := argsort_insertion;
     format_2f := fun _ => py "0.00";
     load_base_dataset := Ok demo_base |}.

(** A text in the form [normalize] leaves it: the only whitespace is the
    single space, never doubled, never first and never last. *)
Definition single_spaced (t : str) : Prop :=
  (forall c, In c t -> isspace c = true -> c = 32) /\
  (forall pre a b post,
      t = pre ++ a :: b :: post -> isspace a = true -> isspace b = false) /\
  (forall c rest, t = c :: rest -> isspace c = false) /\
  (forall pre c, t = pre ++ [c] -> isspace c = false).

(** A default row for reading the base dataset by position. *)
Definition hd_base (rows : list BaseRow) : BaseRow :=
  hd {| base_question := []; base_answer := []; base_category := [];
        base_intent := [] |} rows.

(** A fresh session of the demo user. *)
Definition demo_session : Session :=
  {| user := py "user"; preferred_lang := None; messages := [] |}.


(** ** The index helper *)

(** [i] is the first position of [x] in [l]. *)
Definition first_position (x : str) (l : list str) (i : nat) : Prop :=
  nth_error l i = Some x /\
  forall j, (j < i)%nat -> nth_error l j <> Some x.

(** The normal form [safe_index] compares: [str(v).strip().upper()]. *)
Definition norm_of {Value : Type} (str_of : Value -> str)
    (upper : str -> str) (v : Value) : str :=
  upper (strip (str_of v)).

Definition value_norm_of {Value : Type} (str_of : Value -> str)
    (upper : str -> str) (value : option Value) : str :=
  match value with
  | None => []
  | Some v => norm_of str_of upper v
  end.

Fixpoint nodupb (l : list str) : bool :=
  match l with
  | [] => true
  | x :: l' => negb (existsb (str_eqb x) l') && nodupb l'
  end.

(** ** Laws of the password library *)

(** Base64 text is ASCII: it decodes to a [str] that encodes back to it. *)
Definition base64_text_law (lib : Crypto) : Prop :=
  forall raw, exists s,
    bytes_decode lib (b64encode lib raw) = Ok s /\
    str_encode lib s = Ok (b64encode lib raw).

Definition base64_roundtrip_law (lib : Crypto) : Prop :=
  forall raw, b64decode lib (b64encode lib raw) = Ok raw.

(** A derived SHA-256 key has 32 bytes. *)
Definition key_length_law (lib : Crypto) : Prop :=
  forall name pw salt n, length (pbkdf2_hmac lib name pw salt n) = 32%nat.

(** The salt [hash_password] uses. *)
Definition salt_used (lib : Crypto) (rng : Rng lib) (salt : option bytes)
  : bytes :=
  match salt with
  | None => fst (urandom lib rng 16)
  | Some s => s
  end.

Definition derived_key (lib : Crypto) (pw salt : bytes) : bytes :=
  pbkdf2_hmac lib (py "sha256") pw salt 200000.

(** A users table left by an older version: the password in clear. *)
Definition legacy_users : list UserRow :=
  [ {| user_name := py "admin"; user_pw_hash := SStr (py "admin123");
       user_role := py "user" |} ].

(** ** Complaints *)

(** The number of [?] in a statement. *)
Definition placeholders (q : str) : nat :=
  length (filter (fun c => c =? ch "?") q).

Definition empty_store : Store :=
  {| store_db := loan_db; complaints := []; complaints_seq := 0 |}.

Definition demo_page : PageState :=
  {| session := demo_session; active_ticket := None |}.

(** ** Start-up and login *)

(** The account has no row yet, or a row whose hash is not a PBKDF2
    hash. *)
Definition to_be_seeded (lib : Crypto) (users : list UserRow)
    (username : str) : Prop :=
  match select_user users username with
  | None => True
  | Some r => is_pbkdf2_hash lib (user_pw_hash r) = false
  end.

Definition fresh_state : AppState :=
  {| app_user := None; app_role := None; app_page := Some (py "login") |}.

(** The users table after admin has been seeded with the stand-in
    library and the salt of sixteen sevens. *)
Definition seeded_users : list UserRow :=
  [ {| user_name := py "admin";
       user_pw_hash :=
         SStr (repeat 7 16 ++
               firstn 32 (py "admin123" ++ repeat 7 16 ++ repeat 0 32));
       user_role := py "admin" |} ].

(* ================================================================== *)
(** * Part III: properties                                           *)
(* ================================================================== *)

Local Arguments N.eqb : simpl never.
Local Arguments N.leb : simpl never.
Local Arguments N.ltb : simpl never.

(** ** Strings *)

Lemma str_eqb_eq (a b : str) : str_eqb a b = true <-> a = b.
Proof.
  revert b; induction a as [|x a IH]; intros [|y b]; simpl;
    try (split; (discriminate || reflexivity)).
  rewrite andb_true_iff, N.eqb_eq, IH.
  split; [intros [-> ->]; reflexivity | intros H; inversion H; auto].
Qed.

Lemma str_eqb_refl (a : str) : str_eqb a a = true.
Proof. apply str_eqb_eq; reflexivity. Qed.

Lemma str_eqb_neq (a b : str) : a <> b -> str_eqb a b = false.
Proof.
  intros H; destruct (str_eqb a b) eqn:E; [|reflexivity].
  apply str_eqb_eq in E; contradiction.
Qed.

Lemma startswith_app (p s : str) : startswith p (p ++ s) = true.
Proof.
  induction p as [|x p IH]; simpl; [reflexivity|].
  rewrite N.eqb_refl; exact IH.
Qed.

Lemma startswith_inv (p s : str) :
  startswith p s = true -> exists r, s = p ++ r.
Proof.
  revert s; induction p as [|x p IH]; intros s H; simpl in *.
  - exists s; reflexivity.
  - destruct s as [|y s]; [discriminate|].
    apply andb_true_iff in H as [Hxy H]. apply N.eqb_eq in Hxy; subst y.
    destruct (IH _ H) as [r ->]. exists r; reflexivity.
Qed.

Lemma contains_tail (sub : str) (c : char) (s : str) :
  contains sub (c :: s) = false -> contains sub s = false.
Proof. simpl; intros H; apply orb_false_iff in H as [_ H]; exact H. Qed.

Lemma contains_app_r (sub a s : str) :
  contains sub (a ++ s) = false -> contains sub s = false.
Proof.
  induction a as [|x a IH]; simpl; [auto|].
  intros H; apply orb_false_iff in H as [_ H]; auto.
Qed.

Lemma contains_head (sub s : str) :
  contains sub s = false -> startswith sub s = false.
Proof.
  destruct s; simpl; intros H; apply orb_false_iff in H as [H _]; exact H.
Qed.

Lemma contains_char (c : char) (s : str) :
  contains [c] s = false -> ~ In c s.
Proof.
  induction s as [|x s IH]; simpl; [tauto|].
  intros H; apply orb_false_iff in H as [Hx H].
  intros [->|Hin]; [rewrite N.eqb_refl in Hx; discriminate|].
  exact (IH H Hin).
Qed.

(** ** Decimal numerals *)

Lemma digits_of_uint_digit (d : Decimal.uint) :
  Forall is_digit (digits_of_uint d).
Proof.
  induction d; simpl; constructor; auto; unfold is_digit, digit_char; lia.
Qed.

Lemma digits_of_uint_inj (d1 d2 : Decimal.uint) :
  digits_of_uint d1 = digits_of_uint d2 -> d1 = d2.
Proof.
  revert d2; induction d1; intros d2 H; destruct d2; simpl in H;
    try reflexivity; try discriminate;
    inversion H; f_equal; auto.
Qed.

Lemma str_of_nat_inj (n m : nat) : str_of_nat n = str_of_nat m -> n = m.
Proof.
  unfold str_of_nat; intros H. apply digits_of_uint_inj in H.
  rewrite <- (DecimalNat.Unsigned.of_to n), <- (DecimalNat.Unsigned.of_to m).
  rewrite H; reflexivity.
Qed.

Lemma str_of_nat_digit (n : nat) : Forall is_digit (str_of_nat n).
Proof. apply digits_of_uint_digit. Qed.

(** ** The placeholder guard *)

Lemma digit_no_at (s : str) : Forall is_digit s -> no_at s.
Proof.
  unfold no_at; induction 1 as [|c s Hc _ IH]; simpl; [tauto|].
  intros [E|Hin]; [unfold is_digit, AT in *; lia | auto].
Qed.

Lemma placeholder_key_eq (n : nat) :
  placeholder_key n = AT :: AT :: 80 :: 72 :: str_of_nat n ++ [AT; AT].
Proof. reflexivity. Qed.

(** Two runs without [@], each closed by an [@], agree when one is a prefix
    of the other. *)
Lemma closed_run_prefix (a b x y : str) :
  no_at a -> no_at b ->
  startswith (a ++ AT :: x) (b ++ AT :: y) = true -> a = b.
Proof.
  unfold no_at; revert b; induction a as [|c a IH]; intros [|d b] Ha Hb H;
    simpl in *.
  - reflexivity.
  - apply andb_true_iff in H as [H _]; apply N.eqb_eq in H.
    intuition congruence.
  - apply andb_true_iff in H as [H _]; apply N.eqb_eq in H.
    intuition congruence.
  - apply andb_true_iff in H as [E H]; apply N.eqb_eq in E; subst d.
    f_equal; apply (IH b); tauto.
Qed.

Lemma placeholder_key_prefix (i j : nat) (rest : str) :
  startswith (placeholder_key i) (placeholder_key j ++ rest) = true -> i = j.
Proof.
  rewrite !placeholder_key_eq; simpl.
  rewrite <- app_assoc; simpl. intros H.
  apply str_of_nat_inj.
  apply closed_run_prefix in H; auto using digit_no_at, str_of_nat_digit.
Qed.

Lemma placeholder_key_inj (i j : nat) :
  placeholder_key i = placeholder_key j -> i = j.
Proof.
  intros H. apply (placeholder_key_prefix i j []).
  rewrite <- H. apply startswith_app.
Qed.

Local Arguments placeholder_key : simpl never.

Lemma render_lits (o : str) : render (map Lit o) = o.
Proof. induction o; simpl; congruence. Qed.

Lemma plain_lits (o : str) : plain (map Lit o) = o.
Proof. induction o; simpl; congruence. Qed.

Lemma render_app (a b : list piece) : render (a ++ b) = render a ++ render b.
Proof. apply flat_map_app. Qed.

Lemma plain_app (a b : list piece) : plain (a ++ b) = plain a ++ plain b.
Proof. apply flat_map_app. Qed.

Lemma plain_settle (i : nat) (ps : list piece) : plain (settle i ps) = plain ps.
Proof.
  induction ps as [|[c|n o] ps IH]; simpl; [reflexivity|congruence|].
  destruct (Nat.eqb n i); rewrite plain_app, IH; [rewrite plain_lits|simpl];
    first [reflexivity | rewrite app_nil_r; reflexivity].
Qed.

Lemma In_Mark_lits (n : nat) (o o' : str) : ~ In (Mark n o) (map Lit o').
Proof. induction o'; simpl; [tauto|]. intros [H|H]; [discriminate|auto]. Qed.

Lemma In_settle (i n : nat) (o : str) (ps : list piece) :
  In (Mark n o) (settle i ps) <-> In (Mark n o) ps /\ n <> i.
Proof.
  induction ps as [|[c|m o'] ps IH]; simpl.
  - tauto.
  - rewrite IH. intuition discriminate.
  - rewrite in_app_iff, IH. destruct (Nat.eqb_spec m i) as [->|Hne].
    + split.
      * intros [H|H]; [destruct (In_Mark_lits _ _ _ H) | tauto].
      * intros [[H|H] Hn]; [inversion H; subst; contradiction | auto].
    + simpl. split.
      * intros [[H|[]]|H]; [inversion H; subst; auto | tauto].
      * intros [[H|H] Hn]; auto.
Qed.

(** A prefix without [@] of the rendered text is a prefix of the plain text. *)
Lemma render_prefix_plain (w : str) (ps : list piece) :
  no_at w -> startswith w (render ps) = true -> startswith w (plain ps) = true.
Proof.
  unfold no_at; revert w; induction ps as [|[c|n o] ps IH]; intros [|x w] Hw H;
    simpl in *; try reflexivity; try discriminate.
  - apply andb_true_iff in H as [E H]. rewrite E; simpl. apply IH; tauto.
  - apply andb_true_iff in H as [E _]; apply N.eqb_eq in E.
    unfold AT in *; intuition congruence.
Qed.

(** What follows a marker never completes the marker's closing [@] into the
    head of another marker. *)
Lemma render_not_at_P (ps : list piece) :
  no_at (plain ps) -> startswith [AT; 80] (render ps) = false.
Proof.
  unfold no_at; destruct ps as [|[c|n o] ps]; simpl; intros H.
  - reflexivity.
  - destruct (N.eqb_spec AT c) as [E|_]; [|reflexivity].
    intuition congruence.
  - reflexivity.
Qed.

Lemma startswith_head_neq (x y : char) (p s : str) :
  x <> y -> startswith (x :: p) (y :: s) = false.
Proof. intros H; simpl. apply N.eqb_neq in H; rewrite H; reflexivity. Qed.

Lemma replace_from_skip (old new pre rest : str) :
  replace_from old new (length pre) (pre ++ rest) = replace_from old new 0 rest.
Proof. induction pre; simpl; [destruct rest|]; auto. Qed.

Lemma replace_from_no_at (i : nat) (v pre rest : str) :
  no_at pre ->
  replace_from (placeholder_key i) v 0 (pre ++ rest) =
  pre ++ replace_from (placeholder_key i) v 0 rest.
Proof.
  unfold no_at; induction pre as [|c pre IH]; intros H; [reflexivity|].
  cbn [app replace_from].
  rewrite placeholder_key_eq at 1.
  rewrite startswith_head_neq by (simpl in H; intuition congruence).
  rewrite IH by (simpl in H; tauto). reflexivity.
Qed.

Lemma startswith_app_l (a b s : str) :
  startswith (a ++ b) s = true -> startswith a s = true.
Proof.
  revert s; induction a as [|x a IH]; intros [|y s] H; simpl in *;
    try reflexivity; try discriminate.
  apply andb_true_iff in H as [E H]; rewrite E; simpl; eauto.
Qed.

Lemma startswith_cons (x y : char) (p s : str) :
  startswith (x :: p) (y :: s) = (x =? y) && startswith p s.
Proof. reflexivity. Qed.

Lemma replace_from_miss_step (old new : str) (c : char) (s : str) :
  startswith old (c :: s) = false ->
  replace_from old new 0 (c :: s) = c :: replace_from old new 0 s.
Proof. intros H; cbn [replace_from]; rewrite H; reflexivity. Qed.

Lemma replace_from_hit (x : char) (old new rest : str) :
  replace_from (x :: old) new 0 ((x :: old) ++ rest) =
  new ++ replace_from (x :: old) new 0 rest.
Proof.
  cbn [app replace_from].
  assert (E : startswith (x :: old) (x :: old ++ rest) = true)
    by apply (startswith_app (x :: old) rest).
  rewrite E. cbn [length]. rewrite Nat.sub_1_r; cbn [Nat.pred].
  rewrite replace_from_skip; reflexivity.
Qed.

(** Replacing marker [i] passes over another marker [j] untouched. *)
Lemma replace_from_other_key (i j : nat) (v : str) (ps : list piece) :
  i <> j -> no_at (plain ps) -> no_PH (plain ps) ->
  replace_from (placeholder_key i) v 0 (placeholder_key j ++ render ps) =
  placeholder_key j ++ replace_from (placeholder_key i) v 0 (render ps).
Proof.
  intros Hij Hat HPH.
  assert (H0 : startswith (placeholder_key i)
                 (placeholder_key j ++ render ps) = false).
  { destruct (startswith _ _) eqn:E; [|reflexivity].
    apply placeholder_key_prefix in E; contradiction. }
  revert H0. rewrite (placeholder_key_eq j). cbn [app]. intros H0.
  rewrite replace_from_miss_step by exact H0.
  rewrite replace_from_miss_step by (rewrite placeholder_key_eq; reflexivity).
  change (80 :: 72 :: (str_of_nat j ++ [AT; AT]) ++ render ps)
    with ((80 :: 72 :: str_of_nat j) ++ [AT; AT] ++ render ps)
    || (rewrite <- app_assoc;
        change (80 :: 72 :: str_of_nat j ++ [AT; AT] ++ render ps)
          with ((80 :: 72 :: str_of_nat j) ++ [AT; AT] ++ render ps)).
  rewrite replace_from_no_at.
  2:{ unfold no_at; simpl. pose proof (digit_no_at _ (str_of_nat_digit j)) as D.
      unfold no_at, AT in *. intros [E|[E|E]]; try discriminate; auto. }
  cbn [app].
  rewrite replace_from_miss_step.
  2:{ rewrite placeholder_key_eq, 2 startswith_cons, N.eqb_refl. cbn [andb].
      destruct (startswith _ (render ps)) eqn:E; [|reflexivity].
      change (80 :: 72 :: str_of_nat i ++ [AT; AT])
        with ([80; 72] ++ str_of_nat i ++ [AT; AT]) in E.
      apply startswith_app_l in E.
      apply render_prefix_plain in E.
      - apply contains_head in HPH. congruence.
      - unfold no_at, AT; simpl. intros [F|[F|[]]]; discriminate. }
  rewrite replace_from_miss_step.
  2:{ rewrite placeholder_key_eq, startswith_cons, N.eqb_refl. cbn [andb].
      destruct (startswith _ (render ps)) eqn:E; [|reflexivity].
      change (AT :: 80 :: 72 :: str_of_nat i ++ [AT; AT])
        with ([AT; 80] ++ 72 :: str_of_nat i ++ [AT; AT]) in E.
      apply startswith_app_l in E.
      rewrite render_not_at_P in E by exact Hat. discriminate. }
  rewrite <- app_assoc. reflexivity.
Qed.

Lemma no_at_app (a b : str) : no_at (a ++ b) -> no_at a /\ no_at b.
Proof. unfold no_at; rewrite in_app_iff; tauto. Qed.

(** One step of [restore_placeholders] on a rendered text. *)
Lemma replace_render (i : nat) (v : str) (ps : list piece) :
  no_at (plain ps) -> no_PH (plain ps) ->
  (forall o, In (Mark i o) ps -> o = v) ->
  replace (placeholder_key i) v (render ps) = render (settle i ps).
Proof.
  change (replace (placeholder_key i) v (render ps))
    with (replace_from (placeholder_key i) v 0 (render ps)).
  induction ps as [|[c|j o] ps IH]; intros Hat HPH Hv.
  - reflexivity.
  - change (render (Lit c :: ps)) with ([c] ++ render ps).
    change (plain (Lit c :: ps)) with ([c] ++ plain ps) in *.
    apply no_at_app in Hat as [Hc Hat].
    rewrite replace_from_no_at by exact Hc.
    rewrite IH; [reflexivity | exact Hat | | ].
    + exact (contains_app_r _ _ _ HPH).
    + intros o Ho; apply Hv; right; exact Ho.
  - change (render (Mark j o :: ps)) with (placeholder_key j ++ render ps).
    change (plain (Mark j o :: ps)) with (o ++ plain ps) in *.
    apply no_at_app in Hat as [_ Hat].
    assert (HPH' : no_PH (plain ps)) by exact (contains_app_r _ _ _ HPH).
    assert (IH' := IH Hat HPH' (fun o' Ho => Hv o' (or_intror Ho))).
    change (settle i (Mark j o :: ps))
      with ((if Nat.eqb j i then map Lit o else [Mark j o]) ++ settle i ps).
    rewrite render_app.
    destruct (Nat.eqb_spec j i) as [->|Hne].
    + rewrite render_lits. rewrite (placeholder_key_eq i) at 2.
      rewrite (placeholder_key_eq i) at 1.
      rewrite replace_from_hit. rewrite <- placeholder_key_eq, IH'.
      f_equal. symmetry; apply Hv; left; reflexivity.
    + rewrite replace_from_other_key by auto.
      rewrite IH'. simpl. rewrite app_nil_r. reflexivity.
Qed.

Lemma settle_absent (i : nat) (ps : list piece) :
  (forall o, ~ In (Mark i o) ps) -> settle i ps = ps.
Proof.
  induction ps as [|[c|n o] ps IH]; intros H; simpl.
  - reflexivity.
  - f_equal. apply IH. intros o Ho; apply (H o); right; exact Ho.
  - destruct (Nat.eqb_spec n i) as [->|_].
    + destruct (H o); left; reflexivity.
    + simpl; f_equal. apply IH. intros o' Ho; apply (H o'); right; exact Ho.
Qed.

Lemma render_no_marks (ps : list piece) :
  (forall n o, ~ In (Mark n o) ps) -> render ps = plain ps.
Proof.
  induction ps as [|[c|n o] ps IH]; intros H.
  - reflexivity.
  - simpl; f_equal. apply IH. intros n o Ho; apply (H n o); right; exact Ho.
  - destruct (H n o); left; reflexivity.
Qed.

(** The loop of [restore_placeholders], for the keys [ks] taken in any
    order: every marker whose key is in [ks] is put back. *)
Lemma restore_fold (mapping : dict) (ks : list str) :
  forall ps,
    no_at (plain ps) -> no_PH (plain ps) ->
    (forall n o, In (Mark n o) ps ->
                 dict_get (placeholder_key n) mapping = Some o) ->
    (forall k, In k ks -> exists n, k = placeholder_key n) ->
    exists ps',
      fold_left (restore_step mapping) ks (render ps) = render ps' /\
      plain ps' = plain ps /\
      (forall n o, In (Mark n o) ps' <->
                   In (Mark n o) ps /\ ~ In (placeholder_key n) ks).
Proof.
  induction ks as [|k ks IH]; intros ps Hat HPH Hget Hks.
  - exists ps; simpl; intuition.
  - destruct (Hks k (or_introl eq_refl)) as [i ->].
    assert (Hstep : restore_step mapping (render ps) (placeholder_key i) =
                    render (settle i ps)).
    { unfold restore_step.
      destruct (dict_get (placeholder_key i) mapping) as [v|] eqn:E.
      - apply replace_render; auto.
        intros o Ho. apply Hget in Ho. congruence.
      - rewrite settle_absent; [reflexivity|].
        intros o Ho. apply Hget in Ho. congruence. }
    destruct (IH (settle i ps)) as (ps' & Hf & Hp & Hm).
    + rewrite plain_settle; exact Hat.
    + rewrite plain_settle; exact HPH.
    + intros n o Ho. apply In_settle in Ho as [Ho _]. auto.
    + intros k' Hk'. apply Hks; right; exact Hk'.
    + exists ps'. cbn [fold_left]. rewrite Hstep. split; [exact Hf|].
      split; [rewrite Hp; apply plain_settle|].
      intros n o. rewrite Hm, In_settle. simpl. split.
      * intros [[Ho Hn] Hk]. split; [exact Ho|].
        intros [E|F]; [apply placeholder_key_inj in E; congruence | auto].
      * intros [Ho Hk]. split; [split; [exact Ho|] | tauto].
        intros ->; apply Hk; left; reflexivity.
Qed.

Lemma In_insert_len_desc (x y : str) (l : list str) :
  In y (insert_len_desc x l) <-> y = x \/ In y l.
Proof.
  induction l as [|z l IH]; simpl; [intuition|].
  destruct (length z <=? length x)%nat; simpl; [intuition|].
  rewrite IH; intuition.
Qed.

Lemma In_sorted_len_desc (y : str) (l : list str) :
  In y (sorted_len_desc l) <-> In y l.
Proof.
  induction l as [|x l IH]; simpl; [tauto|].
  rewrite In_insert_len_desc, IH; intuition.
Qed.

Lemma span_app (p : char -> bool) (s a b : str) :
  span p s = (a, b) -> s = a ++ b.
Proof.
  revert a b; induction s as [|c s IH]; simpl; intros a b H.
  - inversion H; reflexivity.
  - destruct (p c).
    + destruct (span p s) as [a' b']. inversion H; subst.
      simpl; f_equal; apply IH; reflexivity.
    + inversion H; reflexivity.
Qed.

Lemma match_double_brace_prefix (s m : str) :
  match_double_brace s = Some m -> nonempty_prefix m s.
Proof.
  unfold match_double_brace.
  destruct s as [|a [|b s1]]; try discriminate.
  destruct ((a =? ch "{") && (b =? ch "{")); [|discriminate].
  destruct (span _ s1) as [body r] eqn:Es.
  destruct r as [|c [|d r']]; try discriminate.
  destruct ((c =? ch "}") && (d =? ch "}")); [|discriminate].
  intros H; inversion H; subst m.
  exists a, (b :: body ++ [c; d]), r'. split; [reflexivity|].
  apply span_app in Es; subst s1. simpl.
  rewrite <- app_assoc; reflexivity.
Qed.

Lemma match_single_brace_prefix (s m : str) :
  match_single_brace s = Some m -> nonempty_prefix m s.
Proof.
  unfold match_single_brace.
  destruct s as [|a s1]; try discriminate.
  destruct (a =? ch "{"); [|discriminate].
  destruct (span _ s1) as [body r] eqn:Es.
  destruct r as [|c r']; try discriminate.
  destruct (c =? ch "}"); [|discriminate].
  intros H; inversion H; subst m.
  exists a, (body ++ [c]), r'. split; [reflexivity|].
  apply span_app in Es; subst s1. simpl.
  rewrite <- app_assoc; reflexivity.
Qed.

Lemma match_angle_prefix (s m : str) :
  match_angle s = Some m -> nonempty_prefix m s.
Proof.
  unfold match_angle.
  destruct s as [|a s1]; try discriminate.
  destruct (a =? ch "<"); [|discriminate].
  destruct (span _ s1) as [body r] eqn:Es.
  destruct r as [|c r']; try discriminate.
  destruct (c =? ch ">"); [|discriminate].
  intros H; inversion H; subst m.
  exists a, (body ++ [c]), r'. split; [reflexivity|].
  apply span_app in Es; subst s1. simpl.
  rewrite <- app_assoc; reflexivity.
Qed.

(** A match is a non-empty prefix of the text it was found in. *)
Lemma match_placeholder_prefix (s m : str) :
  match_placeholder s = Some m -> nonempty_prefix m s.
Proof.
  unfold match_placeholder.
  destruct (match_double_brace s) as [m1|] eqn:E1.
  - intros H; inversion H; subst; auto using match_double_brace_prefix.
  - destruct (match_single_brace s) as [m2|] eqn:E2.
    + intros H; inversion H; subst; auto using match_single_brace_prefix.
    + apply match_angle_prefix.
Qed.

Lemma dict_get_absent (k : str) (m : dict) :
  ~ In k (dict_keys m) -> dict_get k m = None.
Proof.
  induction m as [|[k' v] m IH]; simpl; [reflexivity|]. intros H.
  rewrite str_eqb_neq by intuition congruence. apply IH; tauto.
Qed.

Lemma dict_set_fresh (k v : str) (m : dict) :
  ~ In k (dict_keys m) -> dict_set k v m = m ++ [(k, v)].
Proof.
  induction m as [|[k' v'] m IH]; simpl; [reflexivity|]. intros H.
  rewrite str_eqb_neq by intuition congruence. f_equal; apply IH; tauto.
Qed.

Lemma minted_fresh (mapping : dict) :
  minted mapping ->
  ~ In (placeholder_key (length mapping)) (dict_keys mapping).
Proof.
  unfold minted; intros -> H. apply in_map_iff in H as (j & E & Hj).
  apply placeholder_key_inj in E; subst j. apply in_seq in Hj; lia.
Qed.

Lemma minted_repl (m : str) (mapping : dict) :
  minted mapping ->
  repl m mapping =
    (placeholder_key (length mapping),
     mapping ++ [(placeholder_key (length mapping), m)]) /\
  minted (mapping ++ [(placeholder_key (length mapping), m)]).
Proof.
  intros H. unfold repl. rewrite dict_set_fresh by (apply minted_fresh; exact H).
  split; [reflexivity|]. unfold minted, dict_keys in *.
  rewrite map_app, length_app, H. simpl.
  rewrite Nat.add_1_r, seq_S, map_app. reflexivity.
Qed.

(** [sub_placeholders] emits the rendered pieces and appends their entries. *)
Lemma sub_placeholders_pieces (s : str) :
  forall skip mapping,
    minted mapping ->
    sub_placeholders skip s mapping =
      (render (pieces skip s (length mapping)),
       mapping ++ entries (pieces skip s (length mapping))).
Proof.
  induction s as [|c s IH]; intros skip mapping Hm.
  - simpl. rewrite app_nil_r. destruct skip; reflexivity.
  - destruct skip as [|k]; cbn [sub_placeholders pieces].
    + destruct (match_placeholder (c :: s)) as [m|].
      * destruct (minted_repl m mapping Hm) as [-> Hm'].
        rewrite (IH _ _ Hm'). rewrite length_app, Nat.add_1_r. cbn [length].
        rewrite <- app_assoc. reflexivity.
      * rewrite (IH _ _ Hm). reflexivity.
    + apply IH; exact Hm.
Qed.

Lemma plain_pieces (s : str) :
  forall skip n, plain (pieces skip s n) = skipn skip s.
Proof.
  induction s as [|c s IH]; intros skip n.
  - destruct skip; reflexivity.
  - destruct skip as [|k]; cbn [pieces skipn]; [|apply IH].
    destruct (match_placeholder (c :: s)) as [m|] eqn:E.
    + apply match_placeholder_prefix in E as (x & m' & rest & -> & E).
      simpl in E. inversion E; subst.
      cbn [plain flat_map length]. rewrite Nat.sub_1_r; cbn [Nat.pred].
      change (flat_map _ ?l) with (plain l). rewrite IH.
      rewrite skipn_app, Nat.sub_diag, skipn_all. reflexivity.
    + simpl. change (flat_map _ ?l) with (plain l). rewrite IH. reflexivity.
Qed.

Lemma pieces_marks_ge (s : str) :
  forall skip n j o, In (Mark j o) (pieces skip s n) -> (n <= j)%nat.
Proof.
  induction s as [|c s IH]; intros skip n j o H.
  - destruct skip; destruct H.
  - destruct skip as [|k]; cbn [pieces] in H; [|eauto].
    destruct (match_placeholder (c :: s)) as [m|].
    + destruct H as [H|H]; [inversion H; lia|].
      apply IH in H; lia.
    + destruct H as [H|H]; [discriminate|eauto].
Qed.

Lemma pieces_entries_get (s : str) :
  forall skip n j o,
    In (Mark j o) (pieces skip s n) ->
    dict_get (placeholder_key j) (entries (pieces skip s n)) = Some o.
Proof.
  induction s as [|c s IH]; intros skip n j o H.
  - destruct skip; destruct H.
  - destruct skip as [|k]; cbn [pieces] in *; [|eauto].
    destruct (match_placeholder (c :: s)) as [m|].
    + cbn [entries flat_map app dict_get].
      destruct H as [H|H].
      * inversion H; subst. rewrite str_eqb_refl; reflexivity.
      * rewrite str_eqb_neq.
        -- apply IH; exact H.
        -- intros E; apply placeholder_key_inj in E.
           apply pieces_marks_ge in H; lia.
    + destruct H as [H|H]; [discriminate|]. apply IH; exact H.
Qed.

Lemma entries_keys (ps : list piece) (k : str) :
  In k (dict_keys (entries ps)) <->
  exists n o, k = placeholder_key n /\ In (Mark n o) ps.
Proof.
  induction ps as [|[c|n o] ps IH]; simpl.
  - split; [tauto | intros (n & o & _ & [])].
  - rewrite IH. split; intros (n & o & E & H); exists n, o; split; auto.
    destruct H as [H|H]; [discriminate|exact H].
  - rewrite IH. split.
    + intros [<-|(n' & o' & E & H)]; [exists n, o | exists n', o']; auto.
    + intros (n' & o' & E & [H|H]); [inversion H; subst; auto|].
      right; exists n', o'; auto.
Qed.

(** The round trip on a text whose characters cannot be mistaken for part
    of a marker. *)
Lemma restore_protect_clean (text : str) :
  no_at text -> no_PH text ->
  restore_placeholders (fst (protect_placeholders text))
                       (snd (protect_placeholders text)) = text.
Proof.
  intros Hat HPH. unfold protect_placeholders.
  rewrite sub_placeholders_pieces by reflexivity.
  cbn [fst snd length app].
  set (ps := pieces 0 text 0).
  assert (Hplain : plain ps = text) by apply plain_pieces.
  destruct (restore_fold (entries ps)
              (sorted_len_desc (dict_keys (entries ps))) ps)
    as (ps' & Hf & Hp & Hmarks).
  - rewrite Hplain; exact Hat.
  - rewrite Hplain; exact HPH.
  - intros n o H. apply pieces_entries_get; exact H.
  - intros k Hk. apply In_sorted_len_desc, entries_keys in Hk.
    destruct Hk as (n & o & E & _). exists n; exact E.
  - unfold restore_placeholders.
    change (fun out k => match dict_get k (entries ps) with
                         | Some v => replace k v out
                         | None => out
                         end) with (restore_step (entries ps)).
    rewrite Hf, render_no_marks, Hp; [exact Hplain|].
    intros n o H. apply Hmarks in H as [H Hn]. apply Hn.
    apply In_sorted_len_desc, entries_keys. exists n, o; auto.
Qed.





Example protect_example :
  protect_placeholders (py "Pay {amount} to <name> {{x}}") =
  (py "Pay @@PH0@@ to @@PH1@@ @@PH2@@",
   [(py "@@PH0@@", py "{amount}"); (py "@@PH1@@", py "<name>");
    (py "@@PH2@@", py "{{x}}")]).
Proof. vm_compute. reflexivity. Qed.

Example restore_example :
  let '(t, m) := protect_placeholders (py "Pay {amount} to <name> {{x}}") in
  restore_placeholders t m = py "Pay {amount} to <name> {{x}}".
Proof. vm_compute. reflexivity. Qed.

Example restore_collision :
  let '(t, m) := protect_placeholders (py "{a}{b}PH0{c}") in
  restore_placeholders t m = py "{a}@@PH1{a}PH2@@".
Proof. vm_compute. reflexivity. Qed.

(** ** The department router *)

Lemma dept_matches_false (t : str) (kws : list str) :
  dept_matches t kws = false <-> forall kw, In kw kws -> contains kw t = false.
Proof.
  unfold dept_matches; induction kws as [|k kws IH]; simpl.
  - split; [intros _ kw [] | reflexivity].
  - rewrite orb_false_iff, IH. split.
    + intros [Hk H] kw [<-|Hin]; auto.
    + intros H; split; [apply H; left; reflexivity|].
      intros kw Hin; apply H; right; exact Hin.
Qed.

Lemma dept_matches_true (t : str) (kws : list str) :
  dept_matches t kws = true <-> exists kw, In kw kws /\ contains kw t = true.
Proof. unfold dept_matches; apply existsb_exists. Qed.

Lemma scan_keywords_none (t : str) (table : dept_table) :
  scan_keywords t table = None <-> no_keyword t table.
Proof.
  unfold no_keyword; induction table as [|[d kws] table IH]; simpl.
  - split; [intros _ ? ? ? [] | reflexivity].
  - fold (dept_matches t kws). destruct (dept_matches t kws) eqn:E.
    + split; [discriminate|]. intros H.
      apply dept_matches_true in E as (kw & Hin & Hc).
      rewrite (H d kws kw) in Hc by auto. discriminate.
    + rewrite IH. split.
      * intros H d' kws' kw [Heq|Hin] Hkw; [|exact (H _ _ _ Hin Hkw)].
        inversion Heq; subst. rewrite dept_matches_false in E; auto.
      * intros H d' kws' kw Hin Hkw.
        apply (H d' kws' kw); [right; exact Hin | exact Hkw].
Qed.

Lemma scan_keywords_first (t : str) (table : dept_table) (d : str) :
  first_keyword_dept t table d -> scan_keywords t table = Some d.
Proof.
  intros (pre & kws & post & -> & Hm & Hpre).
  induction pre as [|[d' kws'] pre IH]; simpl.
  - fold (dept_matches t kws). apply dept_matches_true in Hm.
    rewrite Hm; reflexivity.
  - fold (dept_matches t kws').
    replace (dept_matches t kws') with false.
    + apply IH. intros a b c Hin Hc.
      apply (Hpre a b c); [right; exact Hin | exact Hc].
    + symmetry; apply dept_matches_false.
      intros kw Hin. apply (Hpre d' kws' kw); [left; reflexivity | exact Hin].
Qed.

Lemma scan_keywords_some (t : str) (table : dept_table) (d : str) :
  scan_keywords t table = Some d -> first_keyword_dept t table d.
Proof.
  induction table as [|[d' kws'] table IH]; simpl; [discriminate|].
  fold (dept_matches t kws'). destruct (dept_matches t kws') eqn:E.
  - intros H; inversion H; subst. exists [], kws', table.
    split; [reflexivity|]. split; [apply dept_matches_true; exact E|].
    intros ? ? ? [].
  - intros H. destruct (IH H) as (pre & kws & post & -> & Hm & Hpre).
    exists ((d', kws') :: pre), kws, post. split; [reflexivity|].
    split; [exact Hm|].
    intros a b c [Heq|Hin] Hc; [|exact (Hpre _ _ _ Hin Hc)].
    inversion Heq; subst. rewrite dept_matches_false in E; auto.
Qed.

Lemma scan_keywords_hit (t : str) (table : dept_table) (d kw : str)
    (kws : list str) :
  In (d, kws) table -> In kw kws -> contains kw t = true ->
  exists d', scan_keywords t table = Some d'.
Proof.
  intros Hin Hkw Hc. destruct (scan_keywords t table) as [d'|] eqn:E.
  - exists d'; reflexivity.
  - apply scan_keywords_none in E. rewrite (E d kws kw) in Hc by auto.
    discriminate.
Qed.

Lemma route_department_rule (w : World) (text_en d : str) :
  scan_keywords (normalize w text_en) DEPT_KEYWORDS = Some d ->
  route_department w text_en = Ok (d, 1%Q, py "rule").
Proof. unfold route_department; intros ->; reflexivity. Qed.



(** C3, as amended.  When the normalised query contains a keyword of some
    department [d], [route_department] answers with score 1.0 and method
    [rule], whatever the vector stage would do, and the department it
    returns is the first one in the order of [DEPT_KEYWORDS] that has a
    matching keyword: [d] itself when no department listed before [d] has
    one. *)
Theorem route_department_keyword_match
    (w : World) (text_en d kw : str) (kws : list str) :
  In (d, kws) DEPT_KEYWORDS -> In kw kws ->
  contains kw (normalize w text_en) = true ->
  exists d',
    first_keyword_dept (normalize w text_en) DEPT_KEYWORDS d' /\
    route_department w text_en = Ok (d', 1%Q, py "rule") /\
    (first_keyword_dept (normalize w text_en) DEPT_KEYWORDS d -> d' = d).
Proof.
  intros Hd Hkw Hc.
  destruct (scan_keywords_hit _ _ _ _ _ Hd Hkw Hc) as [d' E].
  exists d'. split; [apply scan_keywords_some; exact E|].
  split; [apply route_department_rule; exact E|].
  intros Hf. apply scan_keywords_first in Hf. congruence.
Qed.

Lemma route_department_keyword_match_witness :
  exists d',
    first_keyword_dept (normalize offline_world (py "find atm"))
      DEPT_KEYWORDS d' /\
    route_department offline_world (py "find atm") =
      Ok (d', 1%Q, py "rule") /\
    (first_keyword_dept (normalize offline_world (py "find atm"))
       DEPT_KEYWORDS (py "FIND") -> d' = py "FIND").
Proof.
  apply (route_department_keyword_match offline_world (py "find atm")
           (py "FIND") (py "find atm")
           (map py [ "find atm"; "branch"; "nearest atm";
                     "locator" ]%string)).
  - do 6 right; left; reflexivity.
  - left; reflexivity.
  - vm_compute; reflexivity.
Defined.

(** C3 as stated fails: "find atm" is a keyword of FIND, but the query
    "find atm" is routed to ATM, whose keyword "atm" is met first. *)
Lemma route_department_keyword_counterexample :
  ~ (forall (w : World) (text_en d kw : str) (kws : list str),
       In (d, kws) DEPT_KEYWORDS -> In kw kws ->
       contains kw (normalize w text_en) = true ->
       route_department w text_en = Ok (d, 1%Q, py "rule")).
Proof.
  intros H.
  specialize (H offline_world (py "find atm") (py "FIND") (py "find atm")
                (map py [ "find atm"; "branch"; "nearest atm";
                          "locator" ]%string)).
  assert (E : route_department offline_world (py "find atm") =
              Ok (py "ATM", 1%Q, py "rule")) by (vm_compute; reflexivity).
  rewrite E in H.
  assert (F : @Ok (str * Q * str) (py "ATM", 1%Q, py "rule") =
              Ok (py "FIND", 1%Q, py "rule")).
  { apply H.
    - do 6 right; left; reflexivity.
    - left; reflexivity.
    - vm_compute; reflexivity. }
  vm_compute in F. discriminate F.
Qed.

(** *** The vector stage *)

Lemma Qlt_bool_iff (a b : Q) : Qlt_bool a b = true <-> (a < b)%Q.
Proof.
  unfold Qlt_bool. rewrite negb_true_iff. split.
  - intros H. apply Qnot_le_lt. intros Hle.
    apply Qle_bool_iff in Hle. congruence.
  - intros H. destruct (Qle_bool b a) eqn:E; [|reflexivity].
    apply Qle_bool_iff in E. destruct (Qlt_not_le _ _ H E).
Qed.

Lemma Qlt_bool_false (a b : Q) : Qlt_bool a b = false <-> (b <= a)%Q.
Proof.
  unfold Qlt_bool. rewrite negb_false_iff. apply Qle_bool_iff.
Qed.






(** ** The vector index builder *)

Lemma lstrip_all (s : str) : forallb isspace s = true -> lstrip s = [].
Proof.
  induction s as [|c s IH]; simpl; [reflexivity|].
  intros H; apply andb_true_iff in H as [Hc H]. rewrite Hc; auto.
Qed.

Lemma lstrip_some (s : str) :
  forallb isspace s = false ->
  lstrip s <> [] /\ forallb isspace (lstrip s) = false.
Proof.
  induction s as [|c s IH]; simpl; [discriminate|].
  destruct (isspace c) eqn:Hc; simpl; [exact IH|].
  intros _. split; [discriminate|]. simpl. rewrite Hc; reflexivity.
Qed.

Lemma forallb_rev {A} (f : A -> bool) (l : list A) :
  forallb f (rev l) = forallb f l.
Proof.
  induction l as [|a l IH]; simpl; [reflexivity|].
  rewrite forallb_app, IH; simpl. rewrite andb_true_r, andb_comm.
  reflexivity.
Qed.

(** [t.strip()] is empty exactly for an empty or whitespace-only text. *)
Lemma strip_empty (s : str) : is_empty (strip s) = forallb isspace s.
Proof.
  unfold strip, rstrip. destruct (forallb isspace s) eqn:E.
  - rewrite (lstrip_all _ E). reflexivity.
  - apply lstrip_some in E as [_ E]. rewrite <- forallb_rev in E.
    apply lstrip_some in E as [E _].
    destruct (lstrip (rev (lstrip s))) as [|c r]; [congruence|].
    simpl. destruct (rev r); reflexivity.
Qed.

Lemma filter_map_nonblank (texts : list pyval) :
  filter_map nonblank_str texts = kept_texts texts.
Proof.
  induction texts as [|[s| |q] texts IH]; simpl; auto.
  rewrite strip_empty. destruct (forallb isspace s); simpl; congruence.
Qed.

(** C9.  [build_vector_index] drops the entries that are not strings or are
    empty or whitespace only, and fits a unigram-and-bigram vectorizer on
    the rest: with minimum document frequency 1 and no stop words when
    fewer than 3 texts remain, and with minimum document frequency 2 and
    English stop words otherwise. *)
Theorem build_vector_index_params (w : World) (texts : list pyval) :
  build_vector_index w texts =
  fit_transform w
    (if (length (kept_texts texts) <? 3)%nat
     then {| ngram_range := (1, 2)%nat; min_df := 1; stop_words := None |}
     else {| ngram_range := (1, 2)%nat; min_df := 2;
             stop_words := Some (py "english") |})
    (kept_texts texts).
Proof.
  unfold build_vector_index. rewrite filter_map_nonblank. reflexivity.
Qed.

Example build_vector_index_small :
  build_vector_index offline_world
    [PStr (py "loan status"); PStr (py "  "); PNone; PStr (py "open account")]
  = fit_transform offline_world
      {| ngram_range := (1, 2)%nat; min_df := 1; stop_words := None |}
      [py "loan status"; py "open account"].
Proof. reflexivity. Qed.

(** ** The language normaliser *)

Lemma get_openai_client_total (w : World) :
  exists c, get_openai_client w = Ok c.
Proof.
  unfold get_openai_client. destruct (OPENAI_API_KEY w) as [key|]; eauto.
  destruct (is_empty key); eauto.
  destruct (OpenAI w key); simpl; eauto.
Qed.

Lemma get_openai_client_no_key (w : World) :
  OPENAI_API_KEY w = None \/ OPENAI_API_KEY w = Some [] ->
  get_openai_client w = Ok None.
Proof. unfold get_openai_client; intros [->| ->]; reflexivity. Qed.

Lemma get_openai_client_import_error (w : World) (key : str) (e : exn) :
  OPENAI_API_KEY w = Some key -> OpenAI w key = Raise e ->
  get_openai_client w = Ok None.
Proof.
  unfold get_openai_client; intros -> ->. destruct (is_empty key); reflexivity.
Qed.

Lemma detect_and_translate_total (w : World) (user_text : str) :
  exists lang eng,
    detect_and_translate_to_english w user_text = Ok (lang, eng).
Proof.
  unfold detect_and_translate_to_english.
  destruct (get_openai_client_total w) as [[client|] ->]; cbn [bind]; eauto.
  destruct (protect_placeholders user_text) as [protected mapping].
  destruct (responses_create w client _) as [resp|e]; cbn [bind try_except];
    eauto.
  destruct (json_loads w _) as [data|e]; cbn [bind try_except]; eauto.
  destruct data; cbn [json_get bind try_except]; eauto.
Qed.

(** C6.  [detect_and_translate_to_english] always returns, and it returns
    [("en", user_text)], the input unchanged, whenever the collaborator
    fails: no API key is configured (unset or empty), the client cannot be
    constructed, the request raises, the response is not valid JSON, or the
    decoded value is not an object. *)
Theorem detect_and_translate_degrades (w : World) (user_text : str) :
  (exists lang eng,
      detect_and_translate_to_english w user_text = Ok (lang, eng)) /\
  (OPENAI_API_KEY w = None \/ OPENAI_API_KEY w = Some [] ->
   detect_and_translate_to_english w user_text = Ok (py "en", user_text)) /\
  (forall key e,
      OPENAI_API_KEY w = Some key -> OpenAI w key = Raise e ->
      detect_and_translate_to_english w user_text = Ok (py "en", user_text)) /\
  (forall client,
      get_openai_client w = Ok (Some client) ->
      (forall e,
          responses_create w client (detect_request user_text) = Raise e ->
          detect_and_translate_to_english w user_text =
            Ok (py "en", user_text)) /\
      (forall resp e,
          responses_create w client (detect_request user_text) = Ok resp ->
          json_loads w (strip (or_empty resp)) = Raise e ->
          detect_and_translate_to_english w user_text =
            Ok (py "en", user_text)) /\
      (forall resp data,
          responses_create w client (detect_request user_text) = Ok resp ->
          json_loads w (strip (or_empty resp)) = Ok data ->
          (forall members, data <> JObj members) ->
          detect_and_translate_to_english w user_text =
            Ok (py "en", user_text))).
Proof.
  split; [apply detect_and_translate_total|].
  unfold detect_and_translate_to_english, detect_request.
  split; [|split].
  - intros H. rewrite (get_openai_client_no_key w H). reflexivity.
  - intros key e Hk He.
    rewrite (get_openai_client_import_error w key e Hk He). reflexivity.
  - intros client ->. cbn [bind].
    destruct (protect_placeholders user_text) as [protected mapping].
    cbn [fst]. split; [|split].
    + intros e ->. reflexivity.
    + intros resp e -> . cbn [bind]. intros ->. reflexivity.
    + intros resp data ->. cbn [bind]. intros -> Hobj. cbn [bind].
      destruct data; try reflexivity. destruct (Hobj members eq_refl).
Qed.

Lemma detect_and_translate_degrades_witness :
  detect_and_translate_to_english
    (demo_world (Some (py "sk-demo")) (Ok (Some (py "not json"))))
    (py "Nataka mkopo wa {amount}") =
  Ok (py "en", py "Nataka mkopo wa {amount}").
Proof.
  refine (proj1 (proj2 (proj2 (proj2 (proj2
            (detect_and_translate_degrades
               (demo_world (Some (py "sk-demo")) (Ok (Some (py "not json"))))
               (py "Nataka mkopo wa {amount}")))) tt eq_refl))
            (Some (py "not json")) JSONDecodeError eq_refl eq_refl).
Defined.

Lemma translate_from_english_total (w : World) (text_en target_lang : str) :
  exists out, translate_from_english w text_en target_lang = Ok out.
Proof.
  unfold translate_from_english.
  destruct (str_eqb target_lang (py "en")); eauto.
  destruct (get_openai_client_total w) as [[client|] ->]; cbn [bind]; eauto.
  destruct (protect_placeholders text_en) as [protected mapping].
  destruct (responses_create w client _); cbn [bind try_except]; eauto.
Qed.

(** ** The language command interpreter *)

Lemma handle_language_command_first_rule (w : World) (user_text : str) :
  lower w (strip user_text) <> [] ->
  handle_language_command w user_text =
  first_rule (language_rules w user_text).
Proof.
  intros Ht. unfold handle_language_command, first_rule, language_rules.
  destruct (lower w (strip user_text)) as [|c t]; [congruence|].
  cbn [is_empty find fst snd].
  repeat match goal with
         | |- (if ?b then _ else _) = _ =>
             let x := fresh "b" in
             generalize b; intros x; destruct x;
             [cbn [fst snd]; reflexivity|]
         end.
  reflexivity.
Qed.

Lemma contains_nonempty (sub s : str) :
  sub <> [] -> contains sub s = true -> s <> [].
Proof.
  intros Hsub H ->. destruct sub; [congruence|]. discriminate H.
Qed.

(** C8.  [handle_language_command] tries its rules in the order sw, am, so,
    ar, en and the first rule whose trigger is met decides: it returns that
    language's fixed acknowledgement and code.  So a text with both
    "english" and "somali" (and no Swahili or Amharic trigger) gives [so],
    and every text with "arabic" and no earlier trigger gives the Arabic
    acknowledgement and [ar].  When a non-blank chat message is such a
    command, [chat_page] stores the code as the preferred language, appends
    the message and the acknowledgement and ends the turn: the translator,
    the router and the cascade are not called and nothing is logged,
    whatever the collaborators of the world would do. *)
Theorem handle_language_command_priority (w : World) (user_text : str) :
  (lower w (strip user_text) <> [] ->
   handle_language_command w user_text =
     first_rule (language_rules w user_text)) /\
  map snd (language_rules w user_text) =
    map py [ "sw"; "am"; "so"; "ar"; "en" ]%string /\
  (contains (py "english") (lower w (strip user_text)) = true ->
   contains (py "somali") (lower w (strip user_text)) = true ->
   fst (fst (nth 0 (language_rules w user_text) (false, [], []))) = false ->
   fst (fst (nth 1 (language_rules w user_text) (false, [], []))) = false ->
   handle_language_command w user_text =
     (true, Some ACK_SO, Some (py "so"))) /\
  (contains (py "arabic") (lower w (strip user_text)) = true ->
   fst (fst (nth 0 (language_rules w user_text) (false, [], []))) = false ->
   fst (fst (nth 1 (language_rules w user_text) (false, [], []))) = false ->
   fst (fst (nth 2 (language_rules w user_text) (false, [], []))) = false ->
   handle_language_command w user_text =
     (true, Some ACK_AR, Some (py "ar"))) /\
  (forall (st : Session) (db : DB) (msg code : option str),
      strip user_text <> [] ->
      handle_language_command w (strip user_text) = (true, msg, code) ->
      chat_page_send w st db user_text =
        Ok ({| user := user st;
               preferred_lang := code;
               messages := messages st ++
                 [ (py "user", PStr (strip user_text));
                   (py "assistant", opt_val msg) ] |}, db)).
Proof.
  split; [apply handle_language_command_first_rule|].
  split; [reflexivity|]. split; [|split].
  - intros _ Hso Hsw Ham.
    rewrite handle_language_command_first_rule
      by (apply (contains_nonempty (py "somali")); [discriminate | exact Hso]).
    unfold first_rule, language_rules in *. cbn [nth fst snd find] in *.
    rewrite Hsw, Ham, Hso. reflexivity.
  - intros Har Hsw Ham Hso.
    rewrite handle_language_command_first_rule
      by (apply (contains_nonempty (py "arabic")); [discriminate | exact Har]).
    unfold first_rule, language_rules in *. cbn [nth fst snd find] in *.
    rewrite Hsw, Ham, Hso, Har. reflexivity.
  - intros st db msg code Hq Hcmd. unfold chat_page_send.
    destruct (strip user_text) as [|c q'] eqn:Es; [congruence|].
    cbn [is_empty]. rewrite Hcmd.
    unfold append_message, set_preferred_lang.
    cbn [user preferred_lang messages].
    rewrite <- app_assoc. reflexivity.
Qed.

Lemma handle_language_command_priority_witness :
  handle_language_command offline_world (py "Please reply in Arabic") =
  (true, Some ACK_AR, Some (py "ar")).
Proof.
  refine (proj1 (proj2 (proj2 (proj2
            (handle_language_command_priority offline_world
               (py "Please reply in Arabic"))))) _ _ _ _);
    vm_compute; reflexivity.
Defined.

Example english_and_somali :
  handle_language_command offline_world (py "English or Somali?") =
  (true, Some ACK_SO, Some (py "so")).
Proof. vm_compute. reflexivity. Qed.

Example arabic_command_ends_turn :
  forall db,
    chat_page_send offline_world
      {| user := py "user"; preferred_lang := None; messages := [] |}
      db (py " reply in arabic ") =
    Ok ({| user := py "user"; preferred_lang := Some (py "ar");
           messages := [ (py "user", PStr (py "reply in arabic"));
                         (py "assistant", PStr ACK_AR) ] |}, db).
Proof. intros db. vm_compute. reflexivity. Qed.

(** ** The retrieval cascade *)







(** An answer accepted from the custom tier is translated, logged and
    returned; the base tier is not run. *)
Lemma generate_reply_custom_hit (w : World) (db : DB)
    (user_message_raw query_en username dept out_lang : str)
    (base_df : list BaseRow) (ans_en : str) (score : Q) (source : str) :
  load_base_dataset w = Ok base_df ->
  answer_from_custom_first w db query_en dept =
    Ok (Some (ans_en, score, source)) ->
  exists ans_out,
    translate_from_english w ans_en out_lang = Ok ans_out /\
    generate_reply w db user_message_raw query_en username dept out_lang
    = Ok (ans_out, source, score,
          log_chat db username user_message_raw ans_out source score dept).
Proof.
  intros Hload Hc.
  destruct (translate_from_english_total w ans_en out_lang) as [out Ht].
  exists out. split; [exact Ht|]. unfold generate_reply.
  rewrite Hload; cbn [bind]. rewrite Hc; cbn [bind]. rewrite Ht.
  reflexivity.
Qed.




Example custom_answer_is_translated :
  generate_reply swahili_world loan_db (py "hali ya mkopo")
    (py "loan status") (py "user") (py "LOAN") (py "sw") =
  Ok (py "Mkopo wako unasubiri ukaguzi.", py "custom", 1%Q,
      log_chat loan_db (py "user") (py "hali ya mkopo")
        (py "Mkopo wako unasubiri ukaguzi.") (py "custom") 1%Q (py "LOAN")).
Proof. vm_compute. reflexivity. Qed.

(** X1.  The custom tier comes first: once it accepts, its source is [custom],
    the score is at least 0.40, and the base dataset plays no part in the
    reply beyond having been loaded. *)
Theorem custom_tier_first (w : World) (db : DB)
    (user_message_raw query_en username dept out_lang : str)
    (base_df : list BaseRow) (ans_en : str) (score : Q) (source : str) :
  load_base_dataset w = Ok base_df ->
  answer_from_custom_first w db query_en dept =
    Ok (Some (ans_en, score, source)) ->
  source = py "custom" /\ (SIM_THRESHOLD_CUSTOM <= score)%Q /\
  exists ans_out,
    translate_from_english w ans_en out_lang = Ok ans_out /\
    generate_reply w db user_message_raw query_en username dept out_lang =
    Ok (ans_out, py "custom", score,
        log_chat db username user_message_raw ans_out (py "custom") score
          dept).
Proof.
  intros Hload Hc.
  assert (Hs : source = py "custom" /\ (SIM_THRESHOLD_CUSTOM <= score)%Q).
  { revert Hc. unfold answer_from_custom_first.
    destruct (is_empty (fetch_custom_faqs db (Some dept))); [discriminate|].
    destruct (is_empty (filter _ _)); [discriminate|].
    destruct (build_vector_index w _) as [[vec X]|e]; [|discriminate].
    cbn [bind]. destruct (retrieve_best w _ _ _ _ _) as [res|e];
      [|discriminate].
    cbn [bind]. destruct (index res 0) as [best|e]; [|discriminate].
    cbn [bind]. destruct (Qle_bool SIM_THRESHOLD_CUSTOM (snd best)) eqn:E;
      [|discriminate].
    intros H; inversion H; subst. split; [reflexivity|].
    apply Qle_bool_iff; exact E. }
  destruct Hs as [-> Hscore]. split; [reflexivity|]. split; [exact Hscore|].
  apply (generate_reply_custom_hit w db _ _ _ _ _ base_df); assumption.
Qed.

Lemma custom_tier_first_witness :
  exists ans_out,
    translate_from_english offline_world (py "Your loan is pending review.")
      (py "en") = Ok ans_out /\
    generate_reply offline_world loan_db (py "loan status")
      (py "loan status") (py "user") (py "LOAN") (py "en") =
    Ok (ans_out, py "custom", 1%Q,
        log_chat loan_db (py "user") (py "loan status") ans_out
          (py "custom") 1%Q (py "LOAN")).
Proof.
  refine (proj2 (proj2 (custom_tier_first offline_world loan_db
            (py "loan status") (py "loan status") (py "user") (py "LOAN")
            (py "en") demo_base (py "Your loan is pending review.") 1%Q
            (py "custom") _ _))).
  - reflexivity.
  - vm_compute. reflexivity.
Defined.

(** *** The best match of the custom tier *)

Lemma take_in_range {A} (d : A) (l : list A) (idxs : list nat) :
  Forall (fun i => (i < length l)%nat) idxs ->
  take l idxs = Ok (map (fun i => nth i l d) idxs).
Proof.
  induction 1 as [|i idxs Hi _ IH]; [reflexivity|].
  cbn [take map]. unfold index at 1.
  rewrite (nth_error_nth' l d Hi). cbn [bind]. rewrite IH. reflexivity.
Qed.



(** The insertion argsort of the concrete world meets [argsort_spec]. *)

Lemma insert_by_score_perm (sims : list Q) (i : nat) (l : list nat) :
  Permutation (insert_by_score sims i l) (i :: l).
Proof.
  induction l as [|j l IH]; simpl; [reflexivity|].
  destruct (Qle_bool _ _); [reflexivity|].
  apply perm_trans with (j :: i :: l); [apply perm_skip; exact IH|].
  apply perm_swap.
Qed.

Lemma insert_by_score_sorted (sims : list Q) (i : nat) (l : list nat) :
  StronglySorted (score_le sims) l ->
  StronglySorted (score_le sims) (insert_by_score sims i l).
Proof.
  induction 1 as [|j l Hs IH Hf]; simpl.
  - constructor; constructor.
  - destruct (Qle_bool (nth i sims 0%Q) (nth j sims 0%Q)) eqn:E.
    + apply Qle_bool_iff in E. constructor; [constructor; assumption|].
      constructor; [exact E|].
      eapply Forall_impl; [|exact Hf]. intros k Hk.
      unfold score_le in *. eapply Qle_trans; eauto.
    + constructor; [exact IH|].
      apply (Permutation_Forall (Permutation_sym (insert_by_score_perm _ _ _))).
      constructor; [|exact Hf].
      unfold score_le. apply Qlt_le_weak, Qnot_le_lt. intros H.
      apply Qle_bool_iff in H. congruence.
Qed.

Lemma StronglySorted_nth_error {A} (R : A -> A -> Prop) (l : list A) :
  (forall x, R x x) -> StronglySorted R l ->
  forall a b x y,
    nth_error l a = Some x -> nth_error l b = Some y -> (a <= b)%nat -> R x y.
Proof.
  intros Hrefl; induction 1 as [|z l Hs IH Hf]; intros a b x y Ha Hb Hab.
  - destruct a; discriminate.
  - destruct a as [|a], b as [|b]; simpl in *; try lia.
    + inversion Ha; inversion Hb; subst; apply Hrefl.
    + inversion Ha; subst. rewrite Forall_forall in Hf.
      apply Hf. eapply nth_error_In; exact Hb.
    + apply (IH a b); auto; lia.
Qed.

Lemma argsort_insertion_spec : argsort_spec argsort_insertion.
Proof.
  intros l. unfold argsort_insertion.
  generalize (seq 0 (length l)) as idxs. intros idxs. split.
  - induction idxs as [|i idxs IH]; simpl; [reflexivity|].
    apply perm_trans with (i :: fold_right (insert_by_score l) [] idxs).
    + apply insert_by_score_perm.
    + apply perm_skip; exact IH.
  - apply (StronglySorted_nth_error (score_le l)).
    + intros x; apply Qle_refl.
    + induction idxs as [|i idxs IH]; simpl; [constructor|].
      apply insert_by_score_sorted; exact IH.
Qed.


(** C1 on a table with a blank question.  The index is built over the
    non-blank questions only, but the best position is looked up in the
    unfiltered rows: the query "loan status" matches entry 1 with
    similarity 1, and [generate_reply] returns the answer of entry 2. *)
Theorem generate_reply_blank_question :
  generate_reply offline_world blank_question_db (py "loan status")
    (py "loan status") (py "user") (py "LOAN") (py "en") =
  Ok (py "Cards are replaced within 5 working days.", py "custom", 1%Q,
      log_chat blank_question_db (py "user") (py "loan status")
        (py "Cards are replaced within 5 working days.") (py "custom") 1%Q
        (py "LOAN")).
Proof. vm_compute. reflexivity. Qed.

(** ** More on the language normaliser *)

(** X3.  [translate_from_english] never raises.  It returns the English
    text unchanged when the target is [en], when there is no client, and
    when the request raises; when the request succeeds it returns the
    stripped output with the placeholders of the English text put back. *)
Theorem translate_from_english_degrades
    (w : World) (text_en target_lang : str) :
  (exists out, translate_from_english w text_en target_lang = Ok out) /\
  (target_lang = py "en" ->
   translate_from_english w text_en target_lang = Ok text_en) /\
  (get_openai_client w = Ok None ->
   translate_from_english w text_en target_lang = Ok text_en) /\
  (forall client,
      get_openai_client w = Ok (Some client) ->
      target_lang <> py "en" ->
      (forall e,
          responses_create w client (translate_request text_en target_lang)
            = Raise e ->
          translate_from_english w text_en target_lang = Ok text_en) /\
      (forall resp,
          responses_create w client (translate_request text_en target_lang)
            = Ok resp ->
          translate_from_english w text_en target_lang =
            Ok (restore_placeholders (strip (or_empty resp))
                  (snd (protect_placeholders text_en))))).
Proof.
  split; [apply translate_from_english_total|].
  unfold translate_from_english, translate_request.
  split; [|split].
  - intros ->. reflexivity.
  - intros ->. destruct (str_eqb target_lang (py "en")); reflexivity.
  - intros client -> Hne. rewrite (str_eqb_neq _ _ Hne). cbn [bind].
    destruct (protect_placeholders text_en) as [protected mapping].
    cbn [fst snd]. split.
    + intros e ->. reflexivity.
    + intros resp ->. reflexivity.
Qed.

Lemma translate_from_english_degrades_witness :
  translate_from_english swahili_world (py "Pay {amount} today") (py "sw") =
  Ok (py "Mkopo wako unasubiri ukaguzi.").
Proof.
  refine (proj2 (proj2 (proj2 (proj2
            (translate_from_english_degrades swahili_world
               (py "Pay {amount} today") (py "sw")))) tt eq_refl _)
            (Some (py " Mkopo wako unasubiri ukaguzi. ")) eq_refl).
  vm_compute. discriminate.
Defined.

Lemma existsb_str_In (x : str) (l : list str) :
  existsb (str_eqb x) l = true -> In x l.
Proof.
  intros H. apply existsb_exists in H as (y & Hy & E).
  apply str_eqb_eq in E. subst; exact Hy.
Qed.

(** The language code that comes back is a supported one. *)
Lemma detect_language_code (w : World) (user_text lang eng : str) :
  detect_and_translate_to_english w user_text = Ok (lang, eng) ->
  In lang SUPPORTED_LANGS.
Proof.
  assert (Hen : In (py "en") SUPPORTED_LANGS) by (left; reflexivity).
  unfold detect_and_translate_to_english.
  destruct (get_openai_client_total w) as [[client|] ->]; cbn [bind].
  2:{ intros H; inversion H; subst; exact Hen. }
  destruct (protect_placeholders user_text) as [protected mapping].
  destruct (responses_create w client _) as [resp|e]; cbn [bind try_except].
  2:{ intros H; inversion H; subst; exact Hen. }
  destruct (json_loads w _) as [data|e]; cbn [bind try_except].
  2:{ intros H; inversion H; subst; exact Hen. }
  destruct data; cbn [json_get bind try_except];
    try (intros H; inversion H; subst; exact Hen).
  match goal with
  | |- context [existsb (str_eqb ?l) SUPPORTED_LANGS] =>
      destruct (existsb (str_eqb l) SUPPORTED_LANGS) eqn:E
  end; intros H; inversion H; subst; [|exact Hen].
  apply existsb_str_In; exact E.
Qed.



(** X5.  When the reply decodes to a JSON object that has no [english]
    member, or whose [english] member is the protected text itself, the
    text of the user comes back unchanged, its placeholders restored,
    provided it contains neither [@] nor [PH]. *)
Theorem detect_keeps_text
    (w : World) (user_text : str) (client : Client w) (resp : option str)
    (members : list (str * json)) :
  contains (py "@") user_text = false ->
  contains (py "PH") user_text = false ->
  get_openai_client w = Ok (Some client) ->
  responses_create w client (detect_request user_text) = Ok resp ->
  json_loads w (strip (or_empty resp)) = Ok (JObj members) ->
  json_get (JObj members) (py "english")
    (JStr (fst (protect_placeholders user_text))) =
    Ok (JStr (fst (protect_placeholders user_text))) ->
  exists lang,
    In lang SUPPORTED_LANGS /\
    detect_and_translate_to_english w user_text = Ok (lang, user_text).
Proof.
  intros Hat HPH Hclient Hresp Hjson Heng.
  pose proof (restore_protect_clean user_text
                (contains_char _ _ Hat) HPH) as Hround.
  destruct (detect_and_translate_total w user_text) as (lang & eng & Hd).
  exists lang. split; [exact (detect_language_code _ _ _ _ Hd)|].
  rewrite Hd. revert Hd. unfold detect_and_translate_to_english.
  rewrite Hclient; cbn [bind]. unfold detect_request in Hresp.
  destruct (protect_placeholders user_text) as [protected mapping].
  cbn [fst snd] in *. rewrite Hresp; cbn [bind]. rewrite Hjson; cbn [bind].
  cbn [json_get bind] in *.
  match type of Heng with Ok ?x = Ok _ => set (eng_v := x) in * end.
  assert (Heng' : eng_v = JStr protected) by congruence.
  rewrite Heng'. cbn [py_str try_except]. rewrite Hround.
  intros H; inversion H; reflexivity.
Qed.

Lemma detect_keeps_text_witness :
  exists lang,
    In lang SUPPORTED_LANGS /\
    detect_and_translate_to_english lang_only_world
      (py "Nataka mkopo wa {amount}") =
    Ok (lang, py "Nataka mkopo wa {amount}").
Proof.
  apply (detect_keeps_text lang_only_world (py "Nataka mkopo wa {amount}")
           tt (Some (py "{}")) [(py "lang", JStr (py " SW "))]);
    reflexivity.
Defined.

(** The six results of [handle_language_command]. *)
Lemma handle_language_command_results (w : World) (user_text : str) :
  handle_language_command w user_text = (false, None, None) \/
  In (handle_language_command w user_text) language_commands.
Proof.
  unfold handle_language_command, language_commands.
  destruct (is_empty (lower w (strip user_text))); [left; reflexivity|].
  repeat match goal with
         | |- (if ?b then _ else _) = _ \/ _ =>
             let x := fresh "b" in
             generalize b; intros x; destruct x;
             [right; cbn [In]; tauto|]
         end.
  left; reflexivity.
Qed.

(** X6.  [handle_language_command] either declines with
    [(False, None, None)] or returns one of five fixed results, each a
    fixed acknowledgement with the code of its language; a text that is
    empty once stripped and lower-cased is declined. *)
Theorem handle_language_command_shape (w : World) (user_text : str) :
  (handle_language_command w user_text = (false, None, None) \/
   In (handle_language_command w user_text) language_commands) /\
  (lower w (strip user_text) = [] ->
   handle_language_command w user_text = (false, None, None)).
Proof.
  split; [apply handle_language_command_results|].
  unfold handle_language_command. intros ->. reflexivity.
Qed.

(** ** More on the router *)

Lemma lstrip_head (s : str) (c : char) (r : str) :
  lstrip s = c :: r -> isspace c = false.
Proof.
  induction s as [|x s IH]; simpl; [discriminate|].
  destruct (isspace x) eqn:E; [exact IH|].
  intros H; inversion H; subst; exact E.
Qed.

Lemma lstrip_suffix (s : str) : exists p, s = p ++ lstrip s.
Proof.
  induction s as [|x s [p IH]]; simpl; [exists []; reflexivity|].
  destruct (isspace x).
  - exists (x :: p). simpl. f_equal. exact IH.
  - exists []. reflexivity.
Qed.

(** A stripped text is empty or begins and ends with characters that are
    not whitespace. *)
Lemma strip_ends (s : str) :
  strip s = [] \/
  exists a m z,
    isspace a = false /\ isspace z = false /\
    (strip s = [a] /\ a = z \/ strip s = a :: m ++ [z]).
Proof.
  unfold strip, rstrip.
  destruct (lstrip (rev (lstrip s))) as [|z x] eqn:Ex; [left; reflexivity|].
  right. pose proof (lstrip_head _ _ _ Ex) as Hz.
  destruct (lstrip_suffix (rev (lstrip s))) as [p Hp]. rewrite Ex in Hp.
  assert (Ha : lstrip s = rev x ++ z :: rev p).
  { rewrite <- (rev_involutive (lstrip s)), Hp, rev_app_distr. simpl.
    rewrite <- app_assoc. reflexivity. }
  simpl. destruct (rev x) as [|a m] eqn:Er.
  - exists z, [], z. simpl. auto.
  - simpl in Ha. pose proof (lstrip_head _ _ _ Ha) as Hfa.
    exists a, m, z. simpl. auto.
Qed.

Lemma collapse_ws_spaces (s : str) :
  forall in_run c, In c (collapse_ws in_run s) -> isspace c = true -> c = 32.
Proof.
  induction s as [|x s IH]; intros in_run c; simpl; [tauto|].
  destruct (isspace x) eqn:E.
  - destruct in_run; [apply IH|]. intros [<-|H]; [reflexivity | eauto].
  - intros [<-|H]; [congruence | eauto].
Qed.

(** In the output of [collapse_ws] a whitespace character is never followed
    by another, and after a run has begun the output does not start with
    one. *)
Lemma collapse_ws_no_double (s : str) :
  forall in_run,
    (in_run = true ->
     forall c rest, collapse_ws in_run s = c :: rest -> isspace c = false) /\
    (forall pre a b post,
        collapse_ws in_run s = pre ++ a :: b :: post ->
        isspace a = true -> isspace b = false).
Proof.
  induction s as [|x s IH]; intros in_run; simpl.
  - split; [discriminate|]. intros [|p0 pre] a b post H; discriminate.
  - destruct (isspace x) eqn:E.
    + destruct in_run.
      * apply IH.
      * split; [discriminate|]. destruct (IH true) as [Hhead Hrest].
        intros [|p pre] a b post H Ha.
        -- simpl in H. inversion H; subst. eapply Hhead; eauto.
        -- simpl in H. inversion H; subst. eapply Hrest; eauto.
    + destruct (IH false) as [_ Hrest]. split.
      * intros _ c rest H. inversion H; subst; exact E.
      * intros [|p pre] a b post H Ha.
        -- simpl in H. inversion H; subst. congruence.
        -- simpl in H. inversion H; subst. eapply Hrest; eauto.
Qed.

Lemma collapse_ws_last (m : str) (z : char) :
  isspace z = false ->
  forall in_run, exists out, collapse_ws in_run (m ++ [z]) = out ++ [z].
Proof.
  intros Hz. induction m as [|x m IH]; intros in_run; simpl.
  - rewrite Hz. exists []; reflexivity.
  - destruct (isspace x).
    + destruct in_run.
      * apply IH.
      * destruct (IH true) as [out ->]. exists (32 :: out); reflexivity.
    + destruct (IH false) as [out ->]. exists (x :: out); reflexivity.
Qed.

(** X7.  The text [normalize] returns is single-spaced: its only whitespace
    characters are spaces, no two of them are adjacent, and it neither
    starts nor ends with one, whatever the case mapping does. *)
Theorem normalize_single_spaced (w : World) (text : str) :
  single_spaced (normalize w text).
Proof.
  unfold normalize, single_spaced.
  split; [intros c; apply collapse_ws_spaces|].
  split; [apply (collapse_ws_no_double _ false)|].
  destruct (strip_ends (lower w text))
    as [->|(a & m & z & Ha & Hz & [[-> ->]| ->])].
  - split; [discriminate|]. intros [|p0 pre] c0 H; discriminate.
  - simpl. rewrite Hz. split.
    + intros c rest H; inversion H; subst; exact Hz.
    + intros [|p0 [|p1 pre]] c0 H; inversion H; subst; exact Hz.
  - simpl. rewrite Ha. split.
    + intros c rest H; inversion H; subst; exact Ha.
    + destruct (collapse_ws_last m z Hz false) as [out ->].
      intros pre c H.
      change (a :: out ++ [z]) with ((a :: out) ++ [z]) in H.
      apply app_inj_tail in H as [_ <-]. exact Hz.
Qed.

Example normalize_example :
  normalize offline_world (py "  Cash    Withdrawal FAILED  ") =
  py "cash withdrawal failed".
Proof. vm_compute. reflexivity. Qed.

Lemma scan_keywords_In (t : str) (table : dept_table) (d : str) :
  scan_keywords t table = Some d -> In d (map fst table).
Proof.
  induction table as [|[d' kws] table IH]; simpl; [discriminate|].
  destruct (existsb _ kws); [|auto].
  intros H; inversion H; auto.
Qed.

Lemma incl_by_eqb (l1 l2 : list str) :
  forallb (fun x => existsb (str_eqb x) l2) l1 = true -> incl l1 l2.
Proof.
  intros H x Hx. rewrite forallb_forall in H.
  apply existsb_str_In, H, Hx.
Qed.

Lemma index_In {A} (l : list A) (i : nat) (a : A) :
  index l i = Ok a -> In a l.
Proof.
  unfold index. destruct (nth_error l i) eqn:E; [|discriminate].
  intros H; inversion H; subst. eapply nth_error_In; exact E.
Qed.

(** The three shapes of a routing decision. *)
Lemma route_department_shape (w : World) (text_en d : str) (s : Q)
    (m : str) :
  route_department w text_en = Ok (d, s, m) ->
  In d DEPARTMENTS /\
  ((m = py "rule" /\ s = 1%Q) \/
   (m = py "tfidf_lowconf" /\ d = py "CONTACT" /\
    (s < SIM_THRESHOLD_ROUTE)%Q) \/
   (m = py "tfidf" /\ (SIM_THRESHOLD_ROUTE <= s)%Q)).
Proof.
  unfold route_department.
  destruct (scan_keywords (normalize w text_en) DEPT_KEYWORDS) as [d'|] eqn:E.
  - intros H; inversion H; subst. split; [|left; auto].
    apply scan_keywords_In in E. revert E.
    apply (incl_by_eqb (map fst DEPT_KEYWORDS) DEPARTMENTS).
    vm_compute. reflexivity.
  - unfold build_dept_router.
    destruct (build_vector_index w _) as [[vec X]|e]; cbn [bind];
      [|discriminate].
    destruct (argmax _) as [i|e]; cbn [bind]; [|discriminate].
    destruct (index _ i) as [best_dept|e] eqn:Hd; cbn [bind]; [|discriminate].
    destruct (index (cosine_similarity w _ X) i) as [best|e]; cbn [bind];
      [|discriminate].
    destruct (Qlt_bool best SIM_THRESHOLD_ROUTE) eqn:Hq;
      intros H; inversion H; subst.
    + split; [do 3 right; left; reflexivity|].
      right; left. repeat split. apply Qlt_bool_iff; exact Hq.
    + split.
      * apply index_In in Hd. revert Hd.
        apply (incl_by_eqb _ DEPARTMENTS). vm_compute. reflexivity.
      * right; right. split; [reflexivity|].
        apply Qlt_bool_false; exact Hq.
Qed.

(** X8.  Whenever [route_department] returns, the department is one of the
    nine of [DEPARTMENTS] and the decision has one of three shapes: method
    [rule] with score 1.0; method [tfidf_lowconf] with department CONTACT
    and a score below 0.25; or method [tfidf] with a score of at least
    0.25. *)
Theorem route_department_range (w : World) (text_en d : str) (s : Q)
    (m : str) :
  route_department w text_en = Ok (d, s, m) ->
  In d DEPARTMENTS /\
  ((m = py "rule" /\ s = 1%Q) \/
   (m = py "tfidf_lowconf" /\ d = py "CONTACT" /\
    (s < SIM_THRESHOLD_ROUTE)%Q) \/
   (m = py "tfidf" /\ (SIM_THRESHOLD_ROUTE <= s)%Q)).
Proof. apply route_department_shape. Qed.

Lemma route_department_range_witness :
  In (py "ACCOUNT") DEPARTMENTS.
Proof.
  exact (proj1 (route_department_range offline_world (py "kyc update")
                  (py "ACCOUNT") 1%Q (py "tfidf") eq_refl)).
Defined.

(** ** More on the retrieval cascade *)

Lemma combine_map_same {A B C} (f : A -> B) (g : A -> C) (l : list A) :
  combine (map f l) (map g l) = map (fun a => (f a, g a)) l.
Proof. induction l; simpl; congruence. Qed.

Lemma nth_error_firstn_Some {A} (k : nat) (l : list A) (a : nat) (x : A) :
  nth_error (firstn k l) a = Some x ->
  (a < k)%nat /\ nth_error l a = Some x.
Proof.
  rewrite nth_error_firstn. destruct (Nat.ltb_spec a k); [auto|discriminate].
Qed.

Lemma nth_error_rev_Some {A} (l : list A) (a : nat) (x : A) :
  nth_error (rev l) a = Some x ->
  (a < length l)%nat /\ nth_error l (length l - S a) = Some x.
Proof.
  rewrite nth_error_rev.
  destruct (Nat.ltb_spec a (length l)); [auto|discriminate].
Qed.

(** Read from the end, a sorted list of positions goes down in score. *)
Lemma rev_argsort_descending (f : list Q -> list nat) (l : list Q) :
  argsort_spec f ->
  forall a b i j,
    nth_error (rev (f l)) a = Some i -> nth_error (rev (f l)) b = Some j ->
    (a <= b)%nat -> (nth j l 0 <= nth i l 0)%Q.
Proof.
  intros Hspec a b i j Ha Hb Hab. destruct (Hspec l) as [_ Hsorted].
  apply nth_error_rev_Some in Ha as [Hla Ha].
  apply nth_error_rev_Some in Hb as [Hlb Hb].
  apply (Hsorted _ _ _ _ Hb Ha). lia.
Qed.

(** X9.  With an [argsort] that sorts and one similarity per row,
    [retrieve_best] returns [min(topk, n)] distinct rows, each with its own
    similarity, in descending order of similarity, and no row left out
    scores higher than a row returned. *)
Theorem retrieve_best_top {Row : Type} (w : World) (d : Row)
    (query_en : str) (faq_df : list Row) (vec : Vectorizer w)
    (X : Matrix w) (topk : nat) :
  argsort_spec (argsort w) ->
  length (cosine_similarity w (transform w vec [normalize w query_en]) X) =
    length faq_df ->
  exists idxs,
    retrieve_best w query_en faq_df vec X topk =
      Ok (map (fun i =>
                 (nth i faq_df d,
                  nth i (cosine_similarity w
                           (transform w vec [normalize w query_en]) X) 0%Q))
              idxs) /\
    length idxs = Nat.min topk (length faq_df) /\
    NoDup idxs /\
    Forall (fun i => (i < length faq_df)%nat) idxs /\
    (forall a b i j,
        nth_error idxs a = Some i -> nth_error idxs b = Some j ->
        (a <= b)%nat ->
        (nth j (cosine_similarity w
                  (transform w vec [normalize w query_en]) X) 0 <=
         nth i (cosine_similarity w
                  (transform w vec [normalize w query_en]) X) 0)%Q) /\
    (forall i j,
        In i idxs -> (j < length faq_df)%nat -> ~ In j idxs ->
        (nth j (cosine_similarity w
                  (transform w vec [normalize w query_en]) X) 0 <=
         nth i (cosine_similarity w
                  (transform w vec [normalize w query_en]) X) 0)%Q).
Proof.
  intros Hspec Hlen.
  set (sims := cosine_similarity w (transform w vec [normalize w query_en]) X)
    in *.
  destruct (Hspec sims) as [Hperm _].
  assert (Hl : length (argsort w sims) = length sims).
  { rewrite (Permutation_length Hperm). apply length_seq. }
  assert (Hin : forall i, In i (argsort w sims) <-> (i < length sims)%nat).
  { intros i. split.
    - intros H. apply (Permutation_in _ Hperm), in_seq in H. lia.
    - intros H. apply (Permutation_in _ (Permutation_sym Hperm)), in_seq.
      lia. }
  set (R := rev (argsort w sims)).
  assert (Hsub : forall i, In i (firstn topk R) -> In i (argsort w sims)).
  { intros i H. apply in_rev. fold R.
    rewrite <- (firstn_skipn topk R). apply in_or_app; left; exact H. }
  assert (Hrange : Forall (fun i => (i < length sims)%nat) (firstn topk R)).
  { apply Forall_forall. intros i H. apply Hin, Hsub, H. }
  exists (firstn topk R). split; [|split; [|split; [|split; [|split]]]].
  - unfold retrieve_best. fold sims. fold R.
    rewrite (take_in_range d faq_df) by (rewrite <- Hlen; exact Hrange).
    cbn [bind]. rewrite (take_in_range 0%Q sims) by exact Hrange.
    cbn [bind]. rewrite combine_map_same. reflexivity.
  - rewrite length_firstn. unfold R. rewrite length_rev, Hl, Hlen.
    reflexivity.
  - assert (Hnd : NoDup R).
    { apply NoDup_rev.
      apply (Permutation_NoDup (Permutation_sym Hperm)), seq_NoDup. }
    rewrite <- (firstn_skipn topk R) in Hnd.
    apply NoDup_app_remove_r in Hnd. exact Hnd.
  - rewrite <- Hlen. exact Hrange.
  - intros a b i j Ha Hb Hab.
    apply nth_error_firstn_Some in Ha as [_ Ha].
    apply nth_error_firstn_Some in Hb as [_ Hb].
    exact (rev_argsort_descending _ _ Hspec _ _ _ _ Ha Hb Hab).
  - intros i j Hi Hj Hnot.
    apply In_nth_error in Hi as [a Ha].
    apply nth_error_firstn_Some in Ha as [Hak Ha].
    assert (HjR : In j R).
    { unfold R. apply -> in_rev. apply Hin. lia. }
    apply In_nth_error in HjR as [b Hb].
    apply (rev_argsort_descending _ _ Hspec _ _ _ _ Ha Hb).
    destruct (Nat.le_gt_cases a b) as [Hle|Hgt]; [exact Hle|].
    exfalso. apply Hnot. apply (nth_error_In _ b).
    rewrite nth_error_firstn.
    destruct (Nat.ltb_spec b topk); [exact Hb | lia].
Qed.

Lemma retrieve_best_top_witness :
  exists idxs,
    retrieve_best offline_world (py "how do i apply for a loan") demo_base
      (map base_question demo_base) (map base_question demo_base) 1 =
    Ok (map (fun i =>
               (nth i demo_base (hd_base demo_base),
                nth i [0%Q; 1%Q] 0%Q)) idxs) /\
    length idxs = 1%nat.
Proof.
  destruct (retrieve_best_top offline_world (hd_base demo_base)
              (py "how do i apply for a loan") demo_base
              (map base_question demo_base) (map base_question demo_base) 1
              argsort_insertion_spec eq_refl)
    as (idxs & Hr & Hl & _).
  exists idxs. split; [exact Hr | exact Hl].
Defined.

Lemma take_incl {A} (l : list A) (idxs : list nat) (r : list A) :
  take l idxs = Ok r -> incl r l.
Proof.
  revert r; induction idxs as [|i idxs IH]; intros r; cbn [take].
  - intros H; inversion H. intros x [].
  - destruct (index l i) as [a|e] eqn:Ea; cbn [bind]; [|discriminate].
    destruct (take l idxs) as [r'|e]; cbn [bind]; [|discriminate].
    intros H; inversion H; subst. intros x [<-|Hx].
    + eapply index_In; exact Ea.
    + apply (IH r' eq_refl); exact Hx.
Qed.

(** The row [retrieve_best] puts first is a row of the frame it was given. *)
Lemma retrieve_best_first_In {Row : Type} (w : World) (query_en : str)
    (faq_df : list Row) (vec : Vectorizer w) (X : Matrix w) (topk : nat)
    (res : list (Row * Q)) (best : Row * Q) :
  retrieve_best w query_en faq_df vec X topk = Ok res ->
  index res 0 = Ok best -> In (fst best) faq_df.
Proof.
  unfold retrieve_best.
  destruct (take faq_df _) as [rows|e] eqn:Hrows; cbn [bind]; [|discriminate].
  destruct (take (cosine_similarity w _ X) _) as [scores|e]; cbn [bind];
    [|discriminate].
  intros H Hb. injection H as <-. apply index_In in Hb.
  destruct best as [row sc]. apply in_combine_l in Hb.
  apply (take_incl _ _ _ Hrows). exact Hb.
Qed.

Lemma fetch_custom_faqs_scope (db : DB) (dept : str) (row : FaqRow) :
  In row (fetch_custom_faqs db (Some dept)) ->
  In row (custom_faqs db) /\
  (dept <> [] -> dept <> py "ALL" -> faq_department row = dept).
Proof.
  unfold fetch_custom_faqs.
  destruct (negb (is_empty dept) && negb (str_eqb dept (py "ALL"))) eqn:E.
  - intros H. apply filter_In in H as [Hin Hd]. split; [exact Hin|].
    intros _ _. apply str_eqb_eq; exact Hd.
  - intros H. split; [exact H|]. intros Hne Hall. exfalso.
    apply andb_false_iff in E as [E|E].
    + destruct dept; [congruence|discriminate].
    + apply negb_false_iff, str_eqb_eq in E. congruence.
Qed.

(** What a hit of the custom tier looks like. *)
Lemma answer_from_custom_first_hit (w : World) (db : DB)
    (query_en dept ans : str) (score : Q) (source : str) :
  answer_from_custom_first w db query_en dept =
    Ok (Some (ans, score, source)) ->
  source = py "custom" /\ (SIM_THRESHOLD_CUSTOM <= score)%Q /\
  exists row,
    In row (fetch_custom_faqs db (Some dept)) /\ faq_answer row = ans.
Proof.
  unfold answer_from_custom_first.
  destruct (is_empty (fetch_custom_faqs db (Some dept))); [discriminate|].
  destruct (is_empty (filter _ _)); [discriminate|].
  destruct (build_vector_index w _) as [[vec X]|e]; [|discriminate].
  cbn [bind]. destruct (retrieve_best w _ _ _ _ _) as [res|e] eqn:Hres;
    [|discriminate].
  cbn [bind]. destruct (index res 0) as [best|e] eqn:Hbest; [|discriminate].
  cbn [bind]. destruct (Qle_bool SIM_THRESHOLD_CUSTOM (snd best)) eqn:E;
    [|discriminate].
  intros H; inversion H; subst. split; [reflexivity|].
  split; [apply Qle_bool_iff; exact E|].
  exists (fst best). split; [|reflexivity].
  exact (retrieve_best_first_In _ _ _ _ _ _ _ _ Hres Hbest).
Qed.



(** What a hit of the base tier looks like. *)
Lemma answer_from_base_hit (w : World) (query_en dept : str)
    (base_df : list BaseRow) (ans : str) (score : Q) (source : str) :
  answer_from_base w query_en dept base_df =
    Ok (Some (ans, score, source)) ->
  source = py "base" /\ (SIM_THRESHOLD_BASE <= score)%Q /\
  exists row,
    In row base_df /\ base_answer row = ans /\
    ((exists r, In r base_df /\ base_category r = dept) ->
     base_category row = dept).
Proof.
  unfold answer_from_base.
  set (scoped := filter (fun r => str_eqb (base_category r) dept) base_df).
  set (base_dept := if is_empty scoped then base_df else scoped).
  destruct (build_vector_index w _) as [[vec X]|e]; [|discriminate].
  cbn [bind]. destruct (retrieve_best w _ _ _ _ _) as [res|e] eqn:Hres;
    [|discriminate].
  cbn [bind]. destruct (index res 0) as [best|e] eqn:Hbest; [|discriminate].
  cbn [bind]. destruct (Qle_bool SIM_THRESHOLD_BASE (snd best)) eqn:E;
    [|discriminate].
  intros H; inversion H; subst. split; [reflexivity|].
  split; [apply Qle_bool_iff; exact E|].
  pose proof (retrieve_best_first_In _ _ _ _ _ _ _ _ Hres Hbest) as Hin.
  exists (fst best). unfold base_dept in Hin.
  destruct scoped as [|r0 scoped'] eqn:Es; cbn [is_empty] in Hin.
  - split; [exact Hin|]. split; [reflexivity|].
    intros (r & Hr & Hc). exfalso.
    assert (Hf : In r scoped).
    { unfold scoped. apply filter_In. split; [exact Hr|].
      apply str_eqb_eq; exact Hc. }
    rewrite Es in Hf. destruct Hf.
  - rewrite <- Es in Hin. unfold scoped in Hin.
    apply filter_In in Hin as [Hin Hc]. split; [exact Hin|].
    split; [reflexivity|]. intros _. apply str_eqb_eq; exact Hc.
Qed.



(** ** What a turn leaves behind *)

Lemma openai_fallback_shape (w : World) (query_en : str)
    (context_snippets : list str) (out_lang ans : str) (score : Q)
    (source : str) :
  openai_fallback w query_en context_snippets out_lang =
    Ok (ans, score, source) ->
  score = 0%Q /\
  (source = py "openai" \/
   source = py "fallback" /\
   (ans = MSG_NOT_CONFIDENT \/ ans = MSG_FALLBACK_UNAVAILABLE)).
Proof.
  unfold openai_fallback.
  destruct (get_openai_client_total w) as [[client|] ->]; cbn [bind].
  - destruct (responses_create w client _) as [resp|e];
      cbn [bind try_except]; intros H; injection H as <- <- <-;
      (split; [reflexivity|]).
    + left; reflexivity.
    + right; split; [reflexivity | right; reflexivity].
  - intros H; injection H as <- <- <-. split; [reflexivity|].
    right; split; [reflexivity | left; reflexivity].
Qed.

(** Every path of [generate_reply] that returns has logged the reply it
    returns, and the source tells the tier. *)
Lemma generate_reply_result (w : World) (db db' : DB)
    (user_message_raw query_en username dept out_lang ans source : str)
    (score : Q) :
  generate_reply w db user_message_raw query_en username dept out_lang =
    Ok (ans, source, score, db') ->
  db' = log_chat db username user_message_raw ans source score dept /\
  ((source = py "custom" /\ (SIM_THRESHOLD_CUSTOM <= score)%Q) \/
   (source = py "base" /\ (SIM_THRESHOLD_BASE <= score)%Q) \/
   (source = py "openai" /\ score = 0%Q) \/
   (source = py "fallback" /\ score = 0%Q /\
    (ans = MSG_NOT_CONFIDENT \/ ans = MSG_FALLBACK_UNAVAILABLE))).
Proof.
  unfold generate_reply.
  destruct (load_base_dataset w) as [base_df|e]; cbn [bind]; [|discriminate].
  destruct (answer_from_custom_first w db query_en dept)
    as [[[[a s] src]|]|e] eqn:Hc; cbn [bind]; [| |discriminate].
  - apply answer_from_custom_first_hit in Hc as (Hs & Hq & _).
    destruct (translate_from_english w a out_lang) as [out|e]; cbn [bind];
      [|discriminate].
    intros H; injection H as <- <- <- <-. split; [reflexivity|].
    left; split; assumption.
  - destruct (answer_from_base w query_en dept base_df)
      as [[[[a s] src]|]|e] eqn:Hb; cbn [bind]; [| |discriminate].
    + apply answer_from_base_hit in Hb as (Hs & Hq & _).
      destruct (translate_from_english w a out_lang) as [out|e]; cbn [bind];
        [|discriminate].
      intros H; injection H as <- <- <- <-. split; [reflexivity|].
      right; left; split; assumption.
    + destruct (build_vector_index w _) as [[vec X]|e]; cbn [bind];
        [|discriminate].
      destruct (retrieve_best w _ _ _ _ _) as [top|e]; cbn [bind];
        [|discriminate].
      destruct (openai_fallback w _ _ _) as [[[a s] src]|e] eqn:Hf;
        cbn [bind]; [|discriminate].
      apply openai_fallback_shape in Hf as [Hs Hsrc].
      intros H; injection H as <- <- <- <-. split; [reflexivity|].
      right; right. destruct Hsrc as [Hsrc|[Hsrc Hm]]; [left | right]; auto.
Qed.



Lemma handle_language_command_cases (w : World) (user_text : str) :
  handle_language_command w user_text = (false, None, None) \/
  exists ack code,
    handle_language_command w user_text = (true, Some ack, Some code) /\
    In code SUPPORTED_LANGS /\ code <> [].
Proof.
  destruct (handle_language_command_results w user_text) as [H|H];
    [left; exact H | right].
  unfold language_commands in H. cbn [In] in H.
  destruct H as [H|[H|[H|[H|[H|[]]]]]]; rewrite <- H;
    do 2 eexists; (split; [reflexivity|]);
    (split; [apply existsb_str_In; vm_compute; reflexivity|]);
    intros E; vm_compute in E; discriminate E.
Qed.

(** X13.  A send on the chat page that returns keeps the user and the FAQ
    table.  A blank message changes nothing.  Any other message adds
    exactly two messages to the conversation, the stripped text of the user
    and one reply, and one of three things has happened: a language command
    was acknowledged, the preferred language is now its code and nothing
    was logged; or no key is set, the reply is the fixed notice, and nothing
    was logged; or the reply begins with the answer that was logged, in one
    new row of the chat log under the user's name, the stripped text and a
    department of [DEPARTMENTS], and the preferred language is as before. *)
Theorem chat_page_send_turn (w : World) (st st' : Session) (db db' : DB)
    (q : str) :
  chat_page_send w st db q = Ok (st', db') ->
  user st' = user st /\ custom_faqs db' = custom_faqs db /\
  (strip q = [] -> st' = st /\ db' = db) /\
  (strip q <> [] ->
   exists content,
     messages st' =
       messages st ++
       [ (py "user", PStr (strip q)); (py "assistant", PStr content) ] /\
     ((exists code,
          handle_language_command w (strip q) =
            (true, Some content, Some code) /\
          In code SUPPORTED_LANGS /\
          preferred_lang st' = Some code /\ db' = db) \/
      (handle_language_command w (strip q) = (false, None, None) /\
       is_empty (or_empty (OPENAI_API_KEY w)) = true /\
       content = MSG_KEY_NOT_SET /\
       preferred_lang st' = preferred_lang st /\ db' = db) \/
      (handle_language_command w (strip q) = (false, None, None) /\
       is_empty (or_empty (OPENAI_API_KEY w)) = false /\
       preferred_lang st' = preferred_lang st /\
       exists reply source score dept rest,
         content = reply ++ rest /\ In dept DEPARTMENTS /\
         chat_logs db' =
           chat_logs db ++
           [ {| log_username := user st; log_user_message := strip q;
                log_bot_reply := reply; log_source := source;
                log_score := score; log_department := dept |} ]))).
Proof.
  unfold chat_page_send.
  destruct (is_empty (strip q)) eqn:Hq.
  - intros H; injection H as <- <-.
    split; [reflexivity|]. split; [reflexivity|]. split; [auto|].
    intros Hne. destruct (strip q); [congruence | discriminate].
  - assert (Hne : strip q <> []) by (intros E; rewrite E in Hq; discriminate).
    destruct (handle_language_command_cases w (strip q))
      as [Hh|(ack & code & Hh & Hin & _)]; rewrite Hh; cbv beta iota.
    + destruct (is_empty (or_empty (OPENAI_API_KEY w))) eqn:Hk.
      * intros H; injection H as <- <-.
        split; [reflexivity|]. split; [reflexivity|].
        split; [intros E; contradiction|]. intros _.
        exists MSG_KEY_NOT_SET.
        cbn [messages append_message preferred_lang].
        rewrite <- app_assoc. split; [reflexivity|].
        right; left. auto.
      * destruct (detect_and_translate_to_english w (strip q))
          as [[lang q_en]|e]; cbn [bind]; [|discriminate].
        destruct (route_department w q_en) as [[[dept ds] dm]|e] eqn:Hr;
          cbn [bind]; [|discriminate].
        destruct (generate_reply w db (strip q) q_en _ dept _)
          as [[[[ans source] score] db2]|e] eqn:Hg; cbn [bind];
          [|discriminate].
        apply generate_reply_result in Hg as [-> _].
        apply route_department_shape in Hr as [Hd _].
        intros H; injection H as <- <-.
        cbn [user messages append_message preferred_lang].
        split; [reflexivity|]. split; [reflexivity|].
        split; [intros E; contradiction|]. intros _.
        eexists. rewrite <- app_assoc. split; [reflexivity|].
        right; right. split; [reflexivity|]. split; [reflexivity|].
        split; [reflexivity|].
        exists ans, source, score, dept. eexists.
        split; [reflexivity|]. split; [exact Hd | reflexivity].
    + intros H; injection H as <- <-.
      cbn [user messages append_message set_preferred_lang preferred_lang
           opt_val].
      split; [reflexivity|]. split; [reflexivity|].
      split; [intros E; contradiction|]. intros _.
      exists ack. rewrite <- app_assoc. split; [reflexivity|].
      left. exists code. auto.
Qed.

Lemma chat_page_send_turn_witness :
  exists st' db',
    chat_page_send swahili_world demo_session loan_db
      (py " hali ya mkopo ") = Ok (st', db') /\
    user st' = py "user" /\ custom_faqs db' = custom_faqs loan_db.
Proof.
  assert (H : exists r,
             chat_page_send swahili_world demo_session loan_db
               (py " hali ya mkopo ") = Ok r)
    by (vm_compute; eexists; reflexivity).
  destruct H as [[st' db'] H]. exists st', db'. split; [exact H|].
  destruct (chat_page_send_turn swahili_world _ st' _ db' _ H)
    as (Hu & Hf & _).
  split; [exact Hu | exact Hf].
Defined.

(** X14.  A language command sticks.  After a send that was a language
    command with code [code], the next message that is not a command is
    answered in [code] whatever language is detected for it: the reply is
    the one [generate_reply] gives for [out_lang = code], and the
    preference is still [code] afterwards. *)
Theorem preferred_language_sticks (w : World) (st st1 st2 : Session)
    (db db1 db2 : DB) (q1 q2 ack code : str) :
  strip q1 <> [] ->
  handle_language_command w (strip q1) = (true, Some ack, Some code) ->
  chat_page_send w st db q1 = Ok (st1, db1) ->
  strip q2 <> [] ->
  handle_language_command w (strip q2) = (false, None, None) ->
  is_empty (or_empty (OPENAI_API_KEY w)) = false ->
  chat_page_send w st1 db1 q2 = Ok (st2, db2) ->
  preferred_lang st2 = Some code /\
  exists lang q_en dept dscore dmethod ans source score,
    detect_and_translate_to_english w (strip q2) = Ok (lang, q_en) /\
    route_department w q_en = Ok (dept, dscore, dmethod) /\
    generate_reply w db (strip q2) q_en (user st) dept code =
      Ok (ans, source, score, db2).
Proof.
  intros Hq1 Hh1 H1 Hq2 Hh2 Hk H2.
  assert (Hcode : code <> []).
  { destruct (handle_language_command_cases w (strip q1))
      as [E|(a & c & E & _ & Hc)]; rewrite Hh1 in E; [discriminate|].
    injection E as _ <-. exact Hc. }
  assert (E1 : is_empty (strip q1) = false)
    by (revert Hq1; destruct (strip q1); [congruence | reflexivity]).
  assert (E2 : is_empty (strip q2) = false)
    by (revert Hq2; destruct (strip q2); [congruence | reflexivity]).
  unfold chat_page_send in H1. rewrite E1, Hh1 in H1. cbv beta iota in H1.
  injection H1 as <- <-.
  unfold chat_page_send in H2. rewrite E2, Hh2 in H2. cbv beta iota in H2.
  rewrite Hk in H2.
  cbn [user preferred_lang append_message set_preferred_lang] in H2.
  destruct (detect_and_translate_to_english w (strip q2))
    as [[lang q_en]|e] eqn:Hd; cbn [bind] in H2; [|discriminate].
  assert (Hor : or_else (Some code) lang = code)
    by (destruct code; [congruence | reflexivity]).
  rewrite Hor in H2.
  destruct (route_department w q_en) as [[[dept ds] dm]|e] eqn:Hr;
    cbn [bind] in H2; [|discriminate].
  destruct (generate_reply w db (strip q2) q_en (user st) dept code)
    as [[[[ans source] score] db']|e] eqn:Hg; cbn [bind] in H2;
    [|discriminate].
  injection H2 as <- <-. split; [reflexivity|].
  exists lang, q_en, dept, ds, dm, ans, source, score. auto.
Qed.

Lemma preferred_language_sticks_witness :
  exists st2 db2,
    chat_page_send swahili_world
      (append_message
         (append_message (set_preferred_lang demo_session (Some (py "sw")))
            (py "user") (PStr (py "Jibu kwa Kiswahili")))
         (py "assistant") (PStr ACK_SW))
      loan_db (py "loan status") = Ok (st2, db2) /\
    preferred_lang st2 = Some (py "sw").
Proof.
  assert (H2 : exists r,
             chat_page_send swahili_world
               (append_message
                  (append_message
                     (set_preferred_lang demo_session (Some (py "sw")))
                     (py "user") (PStr (py "Jibu kwa Kiswahili")))
                  (py "assistant") (PStr ACK_SW))
               loan_db (py "loan status") = Ok r)
    by (vm_compute; eexists; reflexivity).
  destruct H2 as [[st2 db2] H2]. exists st2, db2. split; [exact H2|].
  refine (proj1 (preferred_language_sticks swahili_world demo_session _ st2
                   loan_db loan_db db2 (py "Jibu kwa Kiswahili")
                   (py "loan status") ACK_SW (py "sw") _ _ _ _ _ _ H2)).
  - vm_compute; discriminate.
  - vm_compute; reflexivity.
  - vm_compute; reflexivity.
  - vm_compute; discriminate.
  - vm_compute; reflexivity.
  - vm_compute; reflexivity.
Defined.

(** ** More on the placeholder guard *)







(** ** The index helper of the admin forms *)

Lemma existsb_eqb_In (x : str) (l : list str) :
  existsb (fun o => str_eqb o x) l = true <-> In x l.
Proof.
  rewrite existsb_exists. split.
  - intros (y & Hy & E). apply str_eqb_eq in E. subst; exact Hy.
  - intros H. exists x. split; [exact H | apply str_eqb_refl].
Qed.

Lemma list_index_first (x : str) (l : list str) :
  In x l -> exists i, list_index x l = Ok i /\ first_position x l i.
Proof.
  induction l as [|y l IH]; [intros []|]. intros H. cbn [list_index].
  destruct (str_eqb y x) eqn:E.
  - apply str_eqb_eq in E. subst y. exists 0%nat.
    split; [reflexivity|]. split; [reflexivity|]. intros j Hj; lia.
  - destruct H as [H|H]; [subst; rewrite str_eqb_refl in E; discriminate|].
    destruct (IH H) as (i & -> & Hi & Hfirst). exists (S i).
    split; [reflexivity|]. split; [exact Hi|].
    intros [|j] Hj; cbn [nth_error].
    + intros Heq. inversion Heq; subst.
      rewrite str_eqb_refl in E; discriminate.
    + apply Hfirst; lia.
Qed.

Lemma first_position_lt (x : str) (l : list str) (i : nat) :
  first_position x l i -> (i < length l)%nat.
Proof. intros [H _]. apply nth_error_Some. congruence. Qed.

(** What [safe_index] returns, case by case. *)
Lemma safe_index_cases {Value : Type} (str_of : Value -> str)
    (upper : str -> str) (options : list Value)
    (value fallback_value : option Value) :
  exists i,
    safe_index str_of upper options value fallback_value = Ok i /\
    (In (value_norm_of str_of upper value)
        (map (norm_of str_of upper) options) ->
     first_position (value_norm_of str_of upper value)
       (map (norm_of str_of upper) options) i) /\
    (~ In (value_norm_of str_of upper value)
          (map (norm_of str_of upper) options) ->
     match fallback_value with
     | Some f =>
         (In (norm_of str_of upper f) (map (norm_of str_of upper) options) ->
          first_position (norm_of str_of upper f)
            (map (norm_of str_of upper) options) i) /\
         (~ In (norm_of str_of upper f)
               (map (norm_of str_of upper) options) -> i = 0%nat)
     | None => i = 0%nat
     end).
Proof.
  unfold safe_index.
  change (fun o => upper (strip (str_of o))) with (norm_of str_of upper).
  change (match value with
          | None => []
          | Some v => upper (strip (str_of v))
          end) with (value_norm_of str_of upper value).
  set (vn := value_norm_of str_of upper value).
  set (on := map (norm_of str_of upper) options).
  destruct (existsb (fun o => str_eqb o vn) on) eqn:Ev.
  - apply existsb_eqb_In in Ev.
    destruct (list_index_first _ _ Ev) as (i & Hi & Hfirst).
    exists i. split; [exact Hi|]. split; [intros _; exact Hfirst|].
    intros Hn; contradiction.
  - assert (Hv : ~ In vn on).
    { intros H. apply existsb_eqb_In in H. congruence. }
    destruct fallback_value as [f|].
    + change (upper (strip (str_of f))) with (norm_of str_of upper f).
      destruct (existsb (fun o => str_eqb o (norm_of str_of upper f)) on)
        eqn:Ef.
      * apply existsb_eqb_In in Ef.
        destruct (list_index_first _ _ Ef) as (i & Hi & Hfirst).
        exists i. split; [exact Hi|]. split; [intros H; contradiction|].
        intros _. split; [intros _; exact Hfirst|].
        intros Hn; contradiction.
      * exists 0%nat. split; [reflexivity|].
        split; [intros H; contradiction|]. intros _.
        split; [|reflexivity]. intros H.
        apply existsb_eqb_In in H. congruence.
    + exists 0%nat. split; [reflexivity|].
      split; [intros H; contradiction | reflexivity].
Qed.

(** X16.  [safe_index] never raises, and the position it returns is valid
    for any non-empty option list.  It is the first position whose option
    has the normal form (stripped, upper-cased) of the value when there is
    one; failing that, the first position with the normal form of the
    fallback value when one is given and occurs; and 0 in every other
    case. *)
Theorem safe_index_valid {Value : Type} (str_of : Value -> str)
    (upper : str -> str) (options : list Value)
    (value fallback_value : option Value) :
  exists i,
    safe_index str_of upper options value fallback_value = Ok i /\
    (options <> [] -> (i < length options)%nat) /\
    (In (value_norm_of str_of upper value)
        (map (norm_of str_of upper) options) ->
     first_position (value_norm_of str_of upper value)
       (map (norm_of str_of upper) options) i) /\
    (~ In (value_norm_of str_of upper value)
          (map (norm_of str_of upper) options) ->
     match fallback_value with
     | Some f =>
         (In (norm_of str_of upper f) (map (norm_of str_of upper) options) ->
          first_position (norm_of str_of upper f)
            (map (norm_of str_of upper) options) i) /\
         (~ In (norm_of str_of upper f)
               (map (norm_of str_of upper) options) -> i = 0%nat)
     | None => i = 0%nat
     end).
Proof.
  destruct (safe_index_cases str_of upper options value fallback_value)
    as (i & Hi & Hv & Hf).
  exists i. split; [exact Hi|]. split; [|split; [exact Hv | exact Hf]].
  intros Hne.
  assert (Hpos : (0 < length options)%nat)
    by (destruct options; [congruence | cbn [length]; lia]).
  assert (Hlt : forall x,
             first_position x (map (norm_of str_of upper) options) i ->
             (i < length options)%nat).
  { intros x H. apply first_position_lt in H.
    rewrite length_map in H. exact H. }
  destruct (in_dec (list_eq_dec N.eq_dec)
              (value_norm_of str_of upper value)
              (map (norm_of str_of upper) options)) as [Hin|Hnin].
  - exact (Hlt _ (Hv Hin)).
  - specialize (Hf Hnin). destruct fallback_value as [f|]; [|subst; exact Hpos].
    destruct Hf as [Hf1 Hf2].
    destruct (in_dec (list_eq_dec N.eq_dec) (norm_of str_of upper f)
                (map (norm_of str_of upper) options)) as [Hin'|Hnin'].
    + exact (Hlt _ (Hf1 Hin')).
    + rewrite (Hf2 Hnin'). exact Hpos.
Qed.

Lemma nodupb_NoDup (l : list str) : nodupb l = true -> NoDup l.
Proof.
  induction l as [|x l IH]; cbn [nodupb]; intros H; constructor.
  - apply andb_true_iff in H as [H _]. intros Hin.
    apply negb_true_iff in H.
    assert (E : existsb (str_eqb x) l = true).
    { apply existsb_exists. exists x. split; [exact Hin|apply str_eqb_refl]. }
    congruence.
  - apply IH. apply andb_true_iff in H as [_ H]. exact H.
Qed.

Lemma NoDup_map_nth_error {A} (f : A -> str) (l : list A) (i : nat)
    (a : A) :
  NoDup (map f l) -> In a l -> nth_error (map f l) i = Some (f a) ->
  nth_error l i = Some a.
Proof.
  revert i; induction l as [|b l IH]; intros i Hnd Hin Hi; [destruct Hin|].
  cbn [map] in *. inversion Hnd as [|? ? Hnotin Hnd']; subst.
  destruct i as [|i]; cbn [nth_error] in *.
  - inversion Hi as [E]. destruct Hin as [->|Hin]; [reflexivity|].
    exfalso. apply Hnotin. rewrite E. apply in_map; exact Hin.
  - destruct Hin as [->|Hin].
    + exfalso. apply Hnotin. eapply nth_error_In; exact Hi.
    + apply IH; assumption.
Qed.

(** X17.  The select boxes of the admin forms open on the stored value.
    For a list of text options whose normal forms are pairwise different,
    [safe_index] returns the position of the value itself when the value
    is one of the options, and the position of the fallback option when
    the normal form of the value is not among those of the options (a
    missing value counts as the empty text). *)
Theorem safe_index_preselects (upper : str -> str) (options : list str)
    (value fallback_value : option str) (d : str) :
  NoDup (map (norm_of (fun s => s) upper) options) ->
  In d options ->
  value = Some d \/
  (~ In (value_norm_of (fun s => s) upper value)
        (map (norm_of (fun s => s) upper) options) /\
   fallback_value = Some d) ->
  exists i,
    safe_index (fun s => s) upper options value fallback_value = Ok i /\
    nth_error options i = Some d.
Proof.
  intros Hnd Hin Hcase.
  destruct (safe_index_cases (fun s => s) upper options value fallback_value)
    as (i & Hi & Hv & Hf).
  exists i. split; [exact Hi|].
  assert (Hdn : In (norm_of (fun s => s) upper d)
                  (map (norm_of (fun s => s) upper) options))
    by (apply in_map; exact Hin).
  destruct Hcase as [->|[Hn ->]].
  - destruct (Hv Hdn) as [Hnth _].
    exact (NoDup_map_nth_error _ _ _ _ Hnd Hin Hnth).
  - destruct (Hf Hn) as [Hf1 _]. destruct (Hf1 Hdn) as [Hnth _].
    exact (NoDup_map_nth_error _ _ _ _ Hnd Hin Hnth).
Qed.

Lemma safe_index_preselects_witness :
  exists i,
    safe_index (fun s => s) (map ascii_upper) DEPARTMENTS
      (Some (py " general ")) (Some (py "CONTACT")) = Ok i /\
    nth_error DEPARTMENTS i = Some (py "CONTACT").
Proof.
  apply (safe_index_preselects (map ascii_upper) DEPARTMENTS
           (Some (py " general ")) (Some (py "CONTACT")) (py "CONTACT")).
  - apply nodupb_NoDup. vm_compute. reflexivity.
  - apply existsb_str_In. vm_compute. reflexivity.
  - right. split; [|reflexivity]. intros H.
    apply existsb_eqb_In in H. vm_compute in H. discriminate H.
Defined.

(** ** Passwords *)

(** What the stored text of a hash decodes to. *)
Lemma stored_hash_decodes (lib : Crypto) (raw : bytes) (h : str) :
  base64_text_law lib -> base64_roundtrip_law lib ->
  bytes_decode lib (b64encode lib raw) = Ok h ->
  (b <- str_encode lib h ;; b64decode lib b) = Ok raw.
Proof.
  intros Ht Hr Hh. destruct (Ht raw) as (s & Hs & He).
  rewrite Hs in Hh. injection Hh as ->. rewrite He. cbn [bind]. apply Hr.
Qed.

Lemma verify_password_on_hash (lib : Crypto) (raw : bytes) (h p' : str) :
  base64_text_law lib -> base64_roundtrip_law lib ->
  bytes_decode lib (b64encode lib raw) = Ok h ->
  is_pbkdf2_hash lib (SStr h) = (48 <=? length raw)%nat /\
  verify_password lib p' (SStr h) =
    if (48 <=? length raw)%nat
    then pw <- str_encode lib p' ;;
         Ok (str_eqb (derived_key lib pw (firstn 16 raw)) (skipn 16 raw))
    else Ok false.
Proof.
  intros Ht Hr Hh. pose proof (stored_hash_decodes lib raw h Ht Hr Hh) as Hd.
  unfold verify_password, is_pbkdf2_hash. rewrite Hd.
  split; [reflexivity|].
  destruct (48 <=? length raw)%nat; cbn [negb]; [|reflexivity].
  cbn [bind].
  destruct (str_encode lib h) as [b|e]; cbn [bind] in *; [|discriminate].
  rewrite Hd. reflexivity.
Qed.

Lemma hash_password_value (lib : Crypto) (rng : Rng lib)
    (password : str) (pw : bytes) (salt : option bytes) :
  base64_text_law lib ->
  str_encode lib password = Ok pw ->
  exists h rng',
    hash_password lib rng password salt = Ok (h, rng') /\
    (salt = None -> rng' = snd (urandom lib rng 16)) /\
    bytes_decode lib
      (b64encode lib (salt_used lib rng salt ++
                      derived_key lib pw (salt_used lib rng salt))) = Ok h.
Proof.
  intros Ht Hpw. unfold hash_password, salt_used, derived_key.
  destruct salt as [s|].
  - rewrite Hpw; cbn [bind].
    destruct (Ht (s ++ pbkdf2_hmac lib (py "sha256") pw s 200000))
      as (h & Hh & _).
    exists h, rng. rewrite Hh. cbn [bind].
    split; [reflexivity|]. split; [discriminate | reflexivity].
  - destruct (urandom lib rng 16) as [s rng'].
    rewrite Hpw; cbn [bind fst snd].
    destruct (Ht (s ++ pbkdf2_hmac lib (py "sha256") pw s 200000))
      as (h & Hh & _).
    exists h, rng'. rewrite Hh. cbn [bind].
    split; [reflexivity|]. split; reflexivity.
Qed.

(** A hash made with a 16-byte salt is recognised, and a password is
    accepted against it exactly when it derives the same key. *)
Lemma verify_password_fresh_hash (lib : Crypto) (s pw : bytes) (h : str) :
  base64_text_law lib -> base64_roundtrip_law lib -> key_length_law lib ->
  length s = 16%nat ->
  bytes_decode lib (b64encode lib (s ++ derived_key lib pw s)) = Ok h ->
  is_pbkdf2_hash lib (SStr h) = true /\
  forall p' pw',
    str_encode lib p' = Ok pw' ->
    verify_password lib p' (SStr h) =
      Ok (str_eqb (derived_key lib pw' s) (derived_key lib pw s)).
Proof.
  intros Ht Hr Hk Hs Hh.
  assert (Hlen : (48 <=? length (s ++ derived_key lib pw s))%nat = true).
  { apply Nat.leb_le. rewrite length_app, Hs. unfold derived_key.
    rewrite Hk. lia. }
  split.
  - rewrite (proj1 (verify_password_on_hash lib _ h [] Ht Hr Hh)).
    exact Hlen.
  - intros p' pw' Hp'.
    rewrite (proj2 (verify_password_on_hash lib _ h p' Ht Hr Hh)), Hlen, Hp'.
    cbn [bind].
    assert (Hf : firstn 16 (s ++ derived_key lib pw s) = s).
    { rewrite <- Hs.
      rewrite firstn_app, Nat.sub_diag, firstn_all, firstn_O, app_nil_r.
      reflexivity. }
    assert (Hsk : skipn 16 (s ++ derived_key lib pw s) = derived_key lib pw s).
    { rewrite <- Hs.
      rewrite skipn_app, Nat.sub_diag, skipn_all, skipn_O. reflexivity. }
    rewrite Hf, Hsk. reflexivity.
Qed.

(** X18.  [verify_password] answers [False] for anything that is not a
    PBKDF2 hash, namely [None], a value that is neither text nor bytes,
    text that does not decode as Base64 and text that decodes to fewer
    than 48 bytes; and for a password that can be encoded it never raises,
    whatever is stored. *)
Theorem verify_password_total (lib : Crypto) (password : str)
    (stored : stored_val) :
  (is_pbkdf2_hash lib stored = false ->
   verify_password lib password stored = Ok false) /\
  (forall pw,
      str_encode lib password = Ok pw ->
      exists b, verify_password lib password stored = Ok b) /\
  is_pbkdf2_hash lib SNone = false /\
  is_pbkdf2_hash lib SOther = false /\
  (forall s e,
      (b <- str_encode lib s ;; b64decode lib b) = Raise e ->
      is_pbkdf2_hash lib (SStr s) = false) /\
  (forall s raw,
      (b <- str_encode lib s ;; b64decode lib b) = Ok raw ->
      (length raw < 48)%nat ->
      is_pbkdf2_hash lib (SStr s) = false).
Proof.
  split; [|split; [|split; [|split; [|split]]]].
  - intros H. unfold verify_password. rewrite H. reflexivity.
  - intros pw Hpw. unfold verify_password.
    destruct (is_pbkdf2_hash lib stored) eqn:E; cbn [negb]; [|eauto].
    unfold is_pbkdf2_hash in E.
    destruct stored as [|b|s|]; try discriminate.
    + destruct (bytes_decode lib b) as [s|e]; [|discriminate].
      cbn [bind]. destruct (str_encode lib s) as [enc|e]; cbn [bind] in *;
        [|discriminate].
      destruct (b64decode lib enc) as [raw|e]; [|discriminate].
      cbn [bind]. rewrite Hpw. cbn [bind]. eauto.
    + cbn [bind]. destruct (str_encode lib s) as [enc|e]; cbn [bind] in *;
        [|discriminate].
      destruct (b64decode lib enc) as [raw|e]; [|discriminate].
      cbn [bind]. rewrite Hpw. cbn [bind]. eauto.
  - reflexivity.
  - reflexivity.
  - intros s e H. unfold is_pbkdf2_hash. rewrite H. reflexivity.
  - intros s raw H Hlt. unfold is_pbkdf2_hash. rewrite H.
    apply Nat.leb_gt. exact Hlt.
Qed.

(** X19.  Hashing then verifying.  With a Base64 codec that round-trips
    and a 32-byte derived key, a password that can be encoded, hashed with
    a 16-byte salt (the one drawn when none is given), gives a text that
    [is_pbkdf2_hash] recognises and against which [verify_password]
    accepts that password; any other password is accepted exactly when it
    derives the same key from that salt. *)
Theorem hash_verify_roundtrip (lib : Crypto) (rng : Rng lib)
    (password : str) (pw : bytes) (salt : option bytes) :
  base64_text_law lib -> base64_roundtrip_law lib -> key_length_law lib ->
  str_encode lib password = Ok pw ->
  length (salt_used lib rng salt) = 16%nat ->
  exists h rng',
    hash_password lib rng password salt = Ok (h, rng') /\
    is_pbkdf2_hash lib (SStr h) = true /\
    verify_password lib password (SStr h) = Ok true /\
    forall p' pw',
      str_encode lib p' = Ok pw' ->
      verify_password lib p' (SStr h) =
        Ok (str_eqb (derived_key lib pw' (salt_used lib rng salt))
                    (derived_key lib pw (salt_used lib rng salt))).
Proof.
  intros Ht Hr Hk Hpw Hs.
  destruct (hash_password_value lib rng password pw salt Ht Hpw)
    as (h & rng' & Hh & _ & Hd).
  destruct (verify_password_fresh_hash lib _ pw h Ht Hr Hk Hs Hd)
    as [Hrec Hver].
  exists h, rng'. split; [exact Hh|]. split; [exact Hrec|].
  split; [|exact Hver].
  rewrite (Hver password pw Hpw), str_eqb_refl. reflexivity.
Qed.

Lemma toy_crypto_laws :
  base64_text_law toy_crypto /\ base64_roundtrip_law toy_crypto /\
  key_length_law toy_crypto.
Proof.
  split; [|split].
  - intros raw. exists raw. split; reflexivity.
  - intros raw. reflexivity.
  - intros name pw salt n. cbn [pbkdf2_hmac toy_crypto].
    rewrite length_firstn, !length_app, repeat_length. lia.
Qed.

Lemma hash_verify_roundtrip_witness :
  exists h rng',
    hash_password toy_crypto 7 (py "user123") None = Ok (h, rng') /\
    verify_password toy_crypto (py "user123") (SStr h) = Ok true.
Proof.
  destruct toy_crypto_laws as (Ht & Hr & Hk).
  destruct (hash_verify_roundtrip toy_crypto 7 (py "user123")
              (py "user123") None Ht Hr Hk eq_refl eq_refl)
    as (h & rng' & Hh & _ & Hv & _).
  exists h, rng'. split; [exact Hh | exact Hv].
Defined.

(** X20.  A salt of another length than 16 bytes gives a hash that no
    password verifies against, not even the one that was hashed:
    [verify_password] takes the first 16 bytes of the decoded text for the
    salt and the rest for the key. *)
Theorem hash_password_odd_salt (lib : Crypto) (rng rng' : Rng lib)
    (password h p' : str) (s pw' : bytes) :
  base64_text_law lib -> base64_roundtrip_law lib -> key_length_law lib ->
  length s <> 16%nat ->
  hash_password lib rng password (Some s) = Ok (h, rng') ->
  str_encode lib p' = Ok pw' ->
  verify_password lib p' (SStr h) = Ok false.
Proof.
  intros Ht Hr Hk Hs Hh Hp'.
  unfold hash_password in Hh.
  destruct (str_encode lib password) as [pw|e]; cbn [bind] in Hh;
    [|discriminate].
  destruct (bytes_decode lib _) as [h'|e] eqn:Hd; cbn [bind] in Hh;
    [|discriminate].
  injection Hh as <- <-.
  rewrite (proj2 (verify_password_on_hash lib _ h' p' Ht Hr Hd)).
  destruct (Nat.leb_spec 48
              (length (s ++ pbkdf2_hmac lib (py "sha256") pw s 200000)))
    as [Hle|Hlt]; [|reflexivity].
  rewrite Hp'. cbn [bind]. f_equal. apply str_eqb_neq. intros E.
  apply (f_equal (@length N)) in E. unfold derived_key in E.
  rewrite length_skipn, length_app, !Hk in E.
  rewrite length_app, Hk in Hle. lia.
Qed.

Lemma hash_password_odd_salt_witness :
  verify_password toy_crypto (py "user123")
    (SStr (py "saltsalt" ++
           firstn 32 (py "user123" ++ py "saltsalt" ++ repeat 0 32))) =
  Ok false.
Proof.
  destruct toy_crypto_laws as (Ht & Hr & Hk).
  refine (hash_password_odd_salt toy_crypto 7 7 (py "user123") _
            (py "user123") (py "saltsalt") (py "user123") Ht Hr Hk _
            eq_refl eq_refl).
  vm_compute. discriminate.
Defined.

Lemma find_app_last {A} (f : A -> bool) (l : list A) (x : A) :
  find f (l ++ [x]) =
  match find f l with
  | Some y => Some y
  | None => if f x then Some x else None
  end.
Proof.
  induction l as [|a l IH]; cbn [app find]; [reflexivity|].
  destruct (f a); [reflexivity | exact IH].
Qed.

Lemma select_user_update (users : list UserRow) (username u : str)
    (upd : UserRow -> UserRow) :
  (forall r, user_name (upd r) = user_name r) ->
  select_user
    (map (fun r => if str_eqb (user_name r) username then upd r else r)
       users) u =
  match select_user users u with
  | Some r => Some (if str_eqb (user_name r) username then upd r else r)
  | None => None
  end.
Proof.
  intros Hname. unfold select_user.
  induction users as [|r users IH]; cbn [map find]; [reflexivity|].
  replace (user_name (if str_eqb (user_name r) username then upd r else r))
    with (user_name r)
    by (destruct (str_eqb (user_name r) username); [rewrite Hname|];
        reflexivity).
  destruct (str_eqb (user_name r) u); [reflexivity | exact IH].
Qed.

Lemma select_user_name (users : list UserRow) (u : str) (r : UserRow) :
  select_user users u = Some r -> user_name r = u.
Proof.
  unfold select_user. intros H. apply find_some in H as [_ H].
  apply str_eqb_eq; exact H.
Qed.

(** What [seed_or_upgrade_user] commits. *)
Lemma seed_or_upgrade_user_spec (lib : Crypto) (rng : Rng lib)
    (users : list UserRow) (username password role : str) (pw : bytes) :
  base64_text_law lib -> base64_roundtrip_law lib -> key_length_law lib ->
  str_encode lib password = Ok pw ->
  length (fst (urandom lib rng 16)) = 16%nat ->
  role_check role = true ->
  (match select_user users username with
   | None => True
   | Some r => is_pbkdf2_hash lib (user_pw_hash r) = false
   end ->
   exists users',
     seed_or_upgrade_user lib rng users username password role =
       Ok (Done users', snd (urandom lib rng 16)) /\
     verify_user lib users' username password = Ok (Some role) /\
     forall u, u <> username -> select_user users' u = select_user users u)
  /\
  (forall r,
      select_user users username = Some r ->
      is_pbkdf2_hash lib (user_pw_hash r) = true ->
      seed_or_upgrade_user lib rng users username password role =
        Ok (Done users, snd (urandom lib rng 16))).
Proof.
  intros Ht Hr Hk Hpw Hs Hrole.
  destruct (hash_password_value lib rng password pw None Ht Hpw)
    as (h & rng' & Hh & Hrng & Hd).
  rewrite (Hrng eq_refl) in Hh. clear Hrng rng'.
  destruct (verify_password_fresh_hash lib _ pw h Ht Hr Hk Hs Hd)
    as [_ Hver].
  specialize (Hver password pw Hpw). rewrite str_eqb_refl in Hver.
  unfold seed_or_upgrade_user. rewrite Hh. cbn [bind]. rewrite Hrole.
  split.
  - destruct (select_user users username) as [r|] eqn:Hsel.
    + intros Hlegacy. rewrite Hlegacy. cbn [negb]. eexists.
      split; [reflexivity|].
      pose proof (select_user_name _ _ _ Hsel) as Hn.
      split.
      * unfold verify_user.
        rewrite (select_user_update users username username
                   (fun r' => {| user_name := user_name r';
                                 user_pw_hash := SStr h;
                                 user_role := role |}))
          by reflexivity.
        rewrite Hsel, Hn, str_eqb_refl. cbn [user_pw_hash user_role].
        rewrite Hver. reflexivity.
      * intros u Hu.
        rewrite (select_user_update users username u
                   (fun r' => {| user_name := user_name r';
                                 user_pw_hash := SStr h;
                                 user_role := role |}))
          by reflexivity.
        destruct (select_user users u) as [r'|] eqn:Hsel'; [|reflexivity].
        rewrite (select_user_name _ _ _ Hsel').
        rewrite (str_eqb_neq _ _ Hu). reflexivity.
    + intros _. eexists. split; [reflexivity|]. split.
      * unfold verify_user, select_user. rewrite find_app_last.
        fold (select_user users username). rewrite Hsel.
        cbn [user_name]. rewrite str_eqb_refl.
        cbn [user_pw_hash user_role]. rewrite Hver. reflexivity.
      * intros u Hu. unfold select_user. rewrite find_app_last.
        cbn [user_name].
        rewrite (str_eqb_neq username u) by congruence.
        destruct (find _ users); reflexivity.
  - intros r Hsel Hhash. rewrite Hsel, Hhash. reflexivity.
Qed.

(** X21.  Seeding makes the account usable.  For a role the table accepts
    and a password that can be encoded, when the table has no row for the
    user name, or a row whose stored hash is not a PBKDF2 hash,
    [seed_or_upgrade_user] commits a table in which [verify_user] accepts
    the seeded password and returns the seeded role, and the rows of other
    users are as before.  A row that already holds a PBKDF2 hash is left
    alone: the table is unchanged and the password is not reset. *)
Theorem seed_then_login (lib : Crypto) (rng : Rng lib)
    (users : list UserRow) (username password role : str) (pw : bytes) :
  base64_text_law lib -> base64_roundtrip_law lib -> key_length_law lib ->
  str_encode lib password = Ok pw ->
  length (fst (urandom lib rng 16)) = 16%nat ->
  role_check role = true ->
  (match select_user users username with
   | None => True
   | Some r => is_pbkdf2_hash lib (user_pw_hash r) = false
   end ->
   exists users',
     seed_or_upgrade_user lib rng users username password role =
       Ok (Done users', snd (urandom lib rng 16)) /\
     verify_user lib users' username password = Ok (Some role) /\
     forall u, u <> username -> select_user users' u = select_user users u)
  /\
  (forall r,
      select_user users username = Some r ->
      is_pbkdf2_hash lib (user_pw_hash r) = true ->
      seed_or_upgrade_user lib rng users username password role =
        Ok (Done users, snd (urandom lib rng 16))).
Proof. apply seed_or_upgrade_user_spec. Qed.

Lemma seed_then_login_witness :
  exists users',
    seed_or_upgrade_user toy_crypto 7 legacy_users (py "admin")
      (py "admin123") (py "admin") = Ok (Done users', 8) /\
    verify_user toy_crypto users' (py "admin") (py "admin123") =
      Ok (Some (py "admin")).
Proof.
  destruct toy_crypto_laws as (Ht & Hr & Hk).
  destruct (proj1 (seed_then_login toy_crypto 7 legacy_users (py "admin")
                     (py "admin123") (py "admin") (py "admin123")
                     Ht Hr Hk eq_refl eq_refl eq_refl))
    as (users' & Hseed & Hlogin & _).
  - vm_compute. reflexivity.
  - exists users'. split; [exact Hseed | exact Hlogin].
Defined.

(** ** Complaints *)

(** X22.  The text of the statements that read and update complaints
    never contains a value: it depends on the arguments only through the
    tests the code makes (a filter is ["ALL"] or not, a field is given or
    not), and it has exactly one [?] for each parameter bound to it. *)
Theorem complaint_queries_bind_values :
  (forall dept status,
      placeholders (fst (fetch_complaints_query dept status)) =
      length (snd (fetch_complaints_query dept status))) /\
  (forall dept status dept' status',
      str_eqb dept (py "ALL") = str_eqb dept' (py "ALL") ->
      str_eqb status (py "ALL") = str_eqb status' (py "ALL") ->
      fst (fetch_complaints_query dept status) =
      fst (fetch_complaints_query dept' status')) /\
  (forall cid status priority notes,
      placeholders (fst (update_complaint_query cid status priority notes)) =
      length (snd (update_complaint_query cid status priority notes))) /\
  (forall cid status priority notes cid' status' priority' notes',
      truthy status = truthy status' ->
      truthy priority = truthy priority' ->
      (notes = None <-> notes' = None) ->
      fst (update_complaint_query cid status priority notes) =
      fst (update_complaint_query cid' status' priority' notes')).
Proof.
  split; [|split; [|split]].
  - intros dept status. unfold fetch_complaints_query.
    generalize (str_eqb dept (py "ALL")), (str_eqb status (py "ALL")).
    intros [|] [|]; vm_compute; reflexivity.
  - intros dept status dept' status' Hd Hs. unfold fetch_complaints_query.
    rewrite Hd, Hs.
    generalize (str_eqb dept' (py "ALL")), (str_eqb status' (py "ALL")).
    intros [|] [|]; cbv beta iota zeta delta [negb fst]; reflexivity.
  - intros cid status priority notes. unfold update_complaint_query.
    generalize (truthy status), (truthy priority).
    intros [|] [|]; destruct notes; vm_compute; reflexivity.
  - intros cid status priority notes cid' status' priority' notes' Hs Hp Hn.
    unfold update_complaint_query. rewrite Hs, Hp.
    generalize (truthy status'), (truthy priority').
    intros [|] [|]; destruct notes as [n|], notes' as [n'|];
      try (destruct Hn as [Hn _]; discriminate (Hn eq_refl));
      try (destruct Hn as [_ Hn]; discriminate (Hn eq_refl));
      cbv beta iota zeta delta [negb fst]; reflexivity.
Qed.

Lemma list_max_ge (l : list nat) (x : nat) :
  In x l -> (x <= list_max l)%nat.
Proof.
  intros H. pose proof (proj1 (list_max_le l (list_max l)) (Nat.le_refl _))
    as Hall.
  rewrite Forall_forall in Hall. exact (Hall x H).
Qed.

Lemma summary_length (t : str) :
  (length (firstn 180 t ++
           (if (180 <? length t)%nat then py "..." else [])) <= 183)%nat.
Proof.
  rewrite length_app, length_firstn.
  destruct (180 <? length t)%nat.
  - change (length (py "...")) with 3%nat. lia.
  - cbn [length]. lia.
Qed.

(** X23.  A submit on the complaint page that returns keeps the session
    and the FAQ table.  When the form was not submitted or the text is
    blank, and when no key is set, nothing is filed and nothing is logged.
    Otherwise exactly one complaint is filed, with an id above every id
    the table has held, the user's name, the stripped text, a department
    of [DEPARTMENTS], status Open, the chosen priority, no notes, and a
    summary of at most 183 characters that is the stripped text itself
    when that has at most 180 characters and its first 180 characters
    followed by three dots otherwise; the active ticket is that id; and
    exactly one chat log row is added, for the same user, text and
    department. *)
Theorem complaint_page_submit_files (w : World) (ps ps' : PageState)
    (store store' : Store) (submitted : bool) (text priority : str)
    (shown : Shown) :
  complaint_page_submit w ps store submitted text priority =
    Ok (ps', store', shown) ->
  session ps' = session ps /\
  custom_faqs (store_db store') = custom_faqs (store_db store) /\
  (submitted = false \/ strip text = [] \/
   is_empty (or_empty (OPENAI_API_KEY w)) = true ->
   ps' = ps /\ store' = store /\
   (shown = ShownNothing \/ shown = ShownKeyError)) /\
  (submitted = true -> strip text <> [] ->
   is_empty (or_empty (OPENAI_API_KEY w)) = false ->
   exists c reply source score,
     complaints store' = complaints store ++ [c] /\
     (forall c0, In c0 (complaints store) -> (cmp_id c0 < cmp_id c)%nat) /\
     (complaints_seq store < cmp_id c)%nat /\
     complaints_seq store' = cmp_id c /\
     active_ticket ps' = Some (cmp_id c) /\
     cmp_username c = user (session ps) /\
     cmp_text c = strip text /\
     In (cmp_department c) DEPARTMENTS /\
     cmp_status c = py "Open" /\
     cmp_priority c = priority /\
     cmp_internal_notes c = None /\
     (exists summary,
         cmp_summary c = Some summary /\
         (length summary <= 183)%nat /\
         ((length (strip text) <= 180)%nat -> summary = strip text) /\
         ((180 < length (strip text))%nat ->
          summary = firstn 180 (strip text) ++ py "...")) /\
     chat_logs (store_db store') =
       chat_logs (store_db store) ++
       [ {| log_username := user (session ps);
            log_user_message := strip text;
            log_bot_reply := reply; log_source := source;
            log_score := score; log_department := cmp_department c |} ]).
Proof.
  unfold complaint_page_submit.
  set (summary := firstn 180 (strip text) ++ _).
  destruct submitted; cbn [andb].
  2:{ intros H; injection H as <- <- <-.
      split; [reflexivity|]. split; [reflexivity|].
      split; [auto|]. discriminate. }
  destruct (is_empty (strip text)) eqn:Hq; cbn [negb].
  { intros H; injection H as <- <- <-.
    split; [reflexivity|]. split; [reflexivity|].
    split; [auto|]. intros _ Hne.
    destruct (strip text); [congruence | discriminate]. }
  assert (Hne : strip text <> [])
    by (intros E; rewrite E in Hq; discriminate).
  destruct (is_empty (or_empty (OPENAI_API_KEY w))) eqn:Hk.
  { intros H; injection H as <- <- <-.
    split; [reflexivity|]. split; [reflexivity|].
    split; [auto|]. discriminate. }
  destruct (detect_and_translate_to_english w (strip text))
    as [[lang text_en]|e]; cbn [bind]; [|discriminate].
  destruct (route_department w text_en) as [[[dept ds] dm]|e] eqn:Hr;
    cbn [bind]; [|discriminate].
  apply route_department_shape in Hr as [Hd _].
  unfold create_complaint.
  cbn [store_db complaints complaints_seq session active_ticket].
  destruct (generate_reply w (store_db store) (strip text) text_en _ dept _)
    as [[[[ans source] score] db2]|e] eqn:Hg; cbn [bind]; [|discriminate].
  apply generate_reply_result in Hg as [-> _].
  intros H; injection H as <- <- <-.
  cbn [store_db complaints complaints_seq session active_ticket].
  split; [reflexivity|]. split; [reflexivity|].
  split.
  { intros [E|[E|E]]; [discriminate | contradiction | discriminate]. }
  intros _ _ _. eexists. exists ans, source, score.
  split; [reflexivity|].
  cbn [cmp_id cmp_username cmp_text cmp_department cmp_status cmp_priority
       cmp_summary cmp_internal_notes].
  split.
  { intros c0 Hc0.
    assert (cmp_id c0 <= list_max (map cmp_id (complaints store)))%nat
      by (apply list_max_ge, in_map; exact Hc0).
    lia. }
  split; [lia|].
  do 4 (split; [reflexivity|]). split; [exact Hd|].
  do 3 (split; [reflexivity|]).
  split; [|reflexivity].
  exists summary. split; [reflexivity|]. subst summary.
  split; [apply summary_length|].
  split.
  - intros Hle. rewrite firstn_all2 by lia.
    destruct (Nat.ltb_spec 180 (length (strip text))); [lia|].
    apply app_nil_r.
  - intros Hlt.
    destruct (Nat.ltb_spec 180 (length (strip text))); [reflexivity | lia].
Qed.

Lemma complaint_page_submit_files_witness :
  exists ps' store' shown,
    complaint_page_submit swahili_world demo_page empty_store true
      (py "  ATM debited me but I got no cash  ") (py "High") =
      Ok (ps', store', shown) /\
    session ps' = demo_session.
Proof.
  assert (H : exists r,
             complaint_page_submit swahili_world demo_page empty_store true
               (py "  ATM debited me but I got no cash  ") (py "High") =
             Ok r)
    by (vm_compute; eexists; reflexivity).
  destruct H as [[[ps' store'] shown] H]. exists ps', store', shown.
  split; [exact H|].
  exact (proj1 (complaint_page_submit_files swahili_world _ ps' _ store'
                  _ _ _ shown H)).
Defined.

(** ** Deleting a FAQ, start-up and login *)

(** X24.  A deleted FAQ is never served.  [delete_custom_faq] removes the
    rows with the given id and nothing else, and whatever the custom tier
    accepts afterwards is the answer of a row that has another id. *)
Theorem deleted_faq_not_served (w : World) (db : DB) (fid : Z)
    (query_en dept : str) :
  chat_logs (delete_custom_faq db fid) = chat_logs db /\
  (forall row,
      In row (custom_faqs (delete_custom_faq db fid)) <->
      In row (custom_faqs db) /\ faq_id row <> fid) /\
  (forall ans score source,
      answer_from_custom_first w (delete_custom_faq db fid) query_en dept =
        Ok (Some (ans, score, source)) ->
      exists row,
        In row (custom_faqs db) /\ faq_id row <> fid /\
        faq_answer row = ans).
Proof.
  assert (Hrows : forall row,
             In row (custom_faqs (delete_custom_faq db fid)) <->
             In row (custom_faqs db) /\ faq_id row <> fid).
  { intros row. cbn [delete_custom_faq custom_faqs]. rewrite filter_In.
    rewrite negb_true_iff, Z.eqb_neq. reflexivity. }
  split; [reflexivity|]. split; [exact Hrows|].
  intros ans score source H.
  apply answer_from_custom_first_hit in H as (_ & _ & row & Hin & Ha).
  apply fetch_custom_faqs_scope in Hin as [Hin _].
  apply Hrows in Hin as [Hin Hid]. exists row. auto.
Qed.

Example delete_blank_question_row :
  answer_from_custom_first offline_world
    (delete_custom_faq blank_question_db 2) (py "loan status") (py "LOAN") =
  Ok (Some (py "Your loan is pending review.", 1%Q, py "custom")).
Proof. vm_compute. reflexivity. Qed.

Lemma verify_user_select (lib : Crypto) (users users' : list UserRow)
    (username password : str) :
  select_user users' username = select_user users username ->
  verify_user lib users' username password =
  verify_user lib users username password.
Proof. unfold verify_user. intros ->. reflexivity. Qed.

(** X25.  After start-up the two seeded accounts work.  With a Base64
    codec that round-trips, 32-byte keys, two 16-byte salts drawn in a
    row and passwords that can be encoded, when the rows of admin and
    user are missing or hold a hash that is not PBKDF2, [init_db] commits
    tables in which admin/admin123 verifies with role admin and
    user/user123 with role user; no FAQ is left in a department that
    reads GENERAL, and the chat log is as before. *)
Theorem init_db_demo_accounts (lib : Crypto) (rng : Rng lib)
    (users : list UserRow) (db : DB) (pw_admin pw_user : bytes) :
  base64_text_law lib -> base64_roundtrip_law lib -> key_length_law lib ->
  str_encode lib (py "admin123") = Ok pw_admin ->
  str_encode lib (py "user123") = Ok pw_user ->
  length (fst (urandom lib rng 16)) = 16%nat ->
  length (fst (urandom lib (snd (urandom lib rng 16)) 16)) = 16%nat ->
  to_be_seeded lib users (py "admin") ->
  to_be_seeded lib users (py "user") ->
  exists users' db' rng',
    init_db lib rng users db = Ok (Done (users', db'), rng') /\
    verify_user lib users' (py "admin") (py "admin123") =
      Ok (Some (py "admin")) /\
    verify_user lib users' (py "user") (py "user123") =
      Ok (Some (py "user")) /\
    Forall (fun r =>
              map ascii_upper (faq_department r) <> py "GENERAL")
      (custom_faqs db') /\
    chat_logs db' = chat_logs db.
Proof.
  intros Ht Hr Hk Hpa Hpu Hs1 Hs2 Hadmin Huser.
  assert (Hne : py "user" <> py "admin")
    by (intros E; vm_compute in E; discriminate E).
  assert (Hra : role_check (py "admin") = true) by (vm_compute; reflexivity).
  assert (Hru : role_check (py "user") = true) by (vm_compute; reflexivity).
  destruct (proj1 (seed_or_upgrade_user_spec lib rng users (py "admin")
                     (py "admin123") (py "admin") pw_admin
                     Ht Hr Hk Hpa Hs1 Hra) Hadmin)
    as (users1 & Hseed1 & Hlogin1 & Hothers1).
  assert (Huser1 : to_be_seeded lib users1 (py "user")).
  { unfold to_be_seeded. rewrite (Hothers1 _ Hne). exact Huser. }
  destruct (proj1 (seed_or_upgrade_user_spec lib _ users1 (py "user")
                     (py "user123") (py "user") pw_user
                     Ht Hr Hk Hpu Hs2 Hru) Huser1)
    as (users2 & Hseed2 & Hlogin2 & Hothers2).
  exists users2, (migrate_general db). eexists.
  split; [|split; [|split; [|split]]].
  - unfold init_db. rewrite Hseed1. cbn [bind]. rewrite Hseed2.
    reflexivity.
  - rewrite <- Hlogin1. apply verify_user_select.
    apply Hothers2. congruence.
  - exact Hlogin2.
  - cbn [migrate_general custom_faqs]. apply Forall_forall.
    intros r Hin. apply in_map_iff in Hin as (r0 & <- & _).
    destruct (str_eqb (map ascii_upper (faq_department r0)) (py "GENERAL"))
      eqn:E.
    + cbn [faq_department]. intros E'. vm_compute in E'. discriminate E'.
    + intros E'. rewrite E', str_eqb_refl in E. discriminate.
  - reflexivity.
Qed.

Lemma init_db_demo_accounts_witness :
  exists users' db' rng',
    init_db toy_crypto 7 legacy_users loan_db =
      Ok (Done (users', db'), rng') /\
    verify_user toy_crypto users' (py "admin") (py "admin123") =
      Ok (Some (py "admin")) /\
    verify_user toy_crypto users' (py "user") (py "user123") =
      Ok (Some (py "user")).
Proof.
  destruct toy_crypto_laws as (Ht & Hr & Hk).
  destruct (init_db_demo_accounts toy_crypto 7 legacy_users loan_db
              (py "admin123") (py "user123") Ht Hr Hk eq_refl eq_refl
              eq_refl eq_refl)
    as (users' & db' & rng' & Hinit & Ha & Hu & _).
  - vm_compute. reflexivity.
  - vm_compute. exact I.
  - exists users', db', rng'. split; [exact Hinit|].
    split; [exact Ha | exact Hu].
Defined.

(** X26.  Login and the page shown next.  A login that returns either
    leaves the session as it was, or it found a row for the user name
    whose stored hash verifies the password: the session then holds that
    user name and the role of the row, and on the next run [main] shows the
    admin console exactly when that role is admin, and the user home when
    it is user.  In any session, [main] shows the admin console only to
    the role admin. *)
Theorem login_routes_by_role (lib : Crypto) (users : list UserRow)
    (st st' : AppState) (username password : str) :
  login_submit lib users st username password = Ok st' ->
  (forall s, main s = PAdmin -> app_role s = Some (py "admin")) /\
  (st' = st \/
   exists row,
     select_user users username = Some row /\
     verify_password lib password (user_pw_hash row) = Ok true /\
     app_user st' = Some username /\
     app_role st' = Some (user_role row) /\
     (main st' = PAdmin <-> user_role row = py "admin") /\
     (user_role row = py "user" -> main st' = PUserHome)).
Proof.
  intros H. split.
  - intros s. unfold main.
    destruct (str_eqb _ (py "login")); [discriminate|].
    destruct (app_role s) as [r|].
    + destruct (str_eqb r (py "admin")) eqn:E.
      * intros _. apply str_eqb_eq in E. congruence.
      * destruct (str_eqb _ (py "home")); [discriminate|].
        destruct (str_eqb _ (py "complaint")); discriminate.
    + destruct (str_eqb _ (py "home")); [discriminate|].
      destruct (str_eqb _ (py "complaint")); discriminate.
  - revert H. unfold login_submit, verify_user.
    destruct (select_user users username) as [row|] eqn:Hsel; cbn [bind].
    2:{ intros H; injection H as <-. left; reflexivity. }
    destruct (verify_password lib password (user_pw_hash row)) as [[|]|e]
      eqn:Hv; cbn [bind]; [| |discriminate].
    2:{ intros H; injection H as <-. left; reflexivity. }
    cbn [truthy or_empty].
    destruct (is_empty (user_role row)) eqn:Hempty; cbn [negb].
    { intros H; injection H as <-. left; reflexivity. }
    intros H; injection H as <-. right. exists row.
    split; [reflexivity|]. split; [exact Hv|].
    split; [reflexivity|]. split; [reflexivity|].
    assert (Hhl : str_eqb (py "home") (py "login") = false)
      by (vm_compute; reflexivity).
    assert (Hal : str_eqb (py "admin") (py "login") = false)
      by (vm_compute; reflexivity).
    assert (Hah : str_eqb (py "admin") (py "home") = false)
      by (vm_compute; reflexivity).
    assert (Hac : str_eqb (py "admin") (py "complaint") = false)
      by (vm_compute; reflexivity).
    assert (Hhh : str_eqb (py "home") (py "home") = true)
      by apply str_eqb_refl.
    assert (Hua : str_eqb (py "user") (py "admin") = false)
      by (vm_compute; reflexivity).
    unfold main. cbn [app_page app_role].
    destruct (str_eqb (user_role row) (py "user")) eqn:Eu.
    + apply str_eqb_eq in Eu. rewrite Eu, Hhl, Hua, Hhh.
      split; [|reflexivity].
      split; [discriminate|]. intros E. rewrite E in Hua.
      rewrite str_eqb_refl in Hua. discriminate.
    + rewrite Hal.
      destruct (str_eqb (user_role row) (py "admin")) eqn:Ea.
      * apply str_eqb_eq in Ea. split; [tauto|].
        intros E. rewrite E, str_eqb_refl in Eu. discriminate.
      * rewrite Hah, Hac. split.
        -- split; [discriminate|]. intros E.
           rewrite E, str_eqb_refl in Ea. discriminate.
        -- intros E. rewrite E, str_eqb_refl in Eu. discriminate.
Qed.

Lemma login_routes_by_role_witness :
  exists st',
    login_submit toy_crypto seeded_users fresh_state (py "admin")
      (py "admin123") = Ok st' /\
    (st' = fresh_state \/
     exists row,
       select_user seeded_users (py "admin") = Some row /\
       verify_password toy_crypto (py "admin123") (user_pw_hash row) =
         Ok true /\
       app_user st' = Some (py "admin") /\
       app_role st' = Some (user_role row) /\
       (main st' = PAdmin <-> user_role row = py "admin") /\
       (user_role row = py "user" -> main st' = PUserHome)).
Proof.
  assert (H : exists r,
             login_submit toy_crypto seeded_users fresh_state (py "admin")
               (py "admin123") = Ok r)
    by (vm_compute; eexists; reflexivity).
  destruct H as [st' H]. exists st'. split; [exact H|].
  exact (proj2 (login_routes_by_role toy_crypto seeded_users fresh_state
                  st' (py "admin") (py "admin123") H)).
Defined.
